(** * Criterium: criteria, combinators, ordering and builder

    A shallow embedding of the TypeScript library
    (criteria.ts, the combinators And/Or/Not, utils.ts, builder.ts).

    JavaScript arrays are mutable objects handled by reference.  The
    library allocates arrays ([filter], the spread of a [Set]), sorts one
    in place ([Array.prototype.sort]) and hands references back to the
    caller, so arrays live in a store and every operation is a
    computation over that store.  A builder is a mutable object too: the
    object returned by [build()] is a closure over [this]. *)

From Stdlib Require Import ZArith Lia Sorted.
From stdpp Require Import base list.

Set Default Proof Using "Type".

(** ** The array store *)

(** A reference to an array: its index in the store. *)
Abbreviation loc := nat.

(** The store of arrays; allocation appends, nothing is ever freed. *)
Abbreviation heap T := (list (list T)).

Section store.
Context {T : Type}.

(** Computations over the store that may fail (dangling reference, or
    the call stack exhausted). *)
Definition M (A : Type) := heap T -> option (A * heap T).

Definition ret {A} (a : A) : M A := fun h => Some (a, h).

Definition bind {A B} (m : M A) (k : A -> M B) : M B :=
  fun h => match m h with
           | Some (a, h') => k a h'
           | None => None
           end.

Definition fail {A} : M A := fun _ => None.

(** Reading the elements of the array behind a reference. *)
Definition read (r : loc) : M (list T) :=
  fun h => match h !! r with
           | Some l => Some (l, h)
           | None => None
           end.

(** A new array object. *)
Definition alloc (l : list T) : M loc :=
  fun h => Some (length h, h ++ [l]).

(** Overwriting the elements of an existing array. *)
Definition write (r : loc) (l : list T) : M unit :=
  fun h => match h !! r with
           | Some _ => Some (tt, <[r := l]> h)
           | None => None
           end.
End store.

Arguments M : clear implicits.

Notation "'let*' x ':=' m 'in' k" := (bind m (fun x => k))
  (at level 10, x name, m at level 100, k at level 200,
   format "'[v' 'let*'  x  ':='  m  'in' '/' k ']'").

(** ** Built-in array operations *)

Section builtins.
Context {T : Type} `{EqDecision T}.

(** [items.filter(callback)]: a new array with the elements the
    callback accepts, in order. *)
Definition Array_filter (callback : T -> bool) (items : loc) : M T loc :=
  let* l := read items in
  alloc (List.filter callback l).

(** [arr.includes(x)]: membership by SameValueZero, which on object
    references is identity. *)
Definition includes (l : list T) (x : T) : bool := bool_decide (x ∈ l).

(** [new Set(iterable)] adds the elements one by one; an element
    already present is not added again, and iteration of the set
    follows insertion order. *)
Definition Set_add (s : list T) (x : T) : list T :=
  if includes s x then s else s ++ [x].

Definition Set_from (l : list T) : list T := fold_left Set_add l [].

(** The same lists, said the way the specification says them: every
    element once, at the place of its first occurrence ... *)
Fixpoint first_occurrences (l : list T) : list T :=
  match l with
  | [] => []
  | x :: l' =>
      x :: List.filter (fun y => negb (bool_decide (y = x))) (first_occurrences l')
  end.

(** ... and the first list followed by the elements of the second that
    the first does not hold, duplicates removed. *)
Definition union_in_order (first other : list T) : list T :=
  first_occurrences first ++
  List.filter (fun y => negb (includes first y)) (first_occurrences other).

(** [Array.prototype.sort(comparefn)]: the engine's algorithm is not
    fixed by the language, which only requires the sort to be stable
    and to follow [comparefn]; a stable insertion sort stands for it.
    [comparefn a b > 0] moves [b] before [a]. *)
Fixpoint sort_insert (comparefn : T -> T -> Z) (x : T) (l : list T) : list T :=
  match l with
  | [] => [x]
  | y :: l' =>
      if (0 <? comparefn x y)%Z then y :: sort_insert comparefn x l'
      else x :: y :: l'
  end.

Definition sorted_by (comparefn : T -> T -> Z) (l : list T) : list T :=
  foldr (sort_insert comparefn) [] l.

(** The sort is in place and returns the array it was called on. *)
Definition Array_sort (comparefn : T -> T -> Z) (items : loc) : M T loc :=
  let* l := read items in
  let* _ := write items (sorted_by comparefn l) in
  ret items.
End builtins.

(** ** utils.ts: OrderBy *)

(** Modelled from the spec: the type [OrderDirection] of type.ts, which
    is not among the sources; the interface lists ["asc" | "desc"]. *)
Inductive OrderDirection := asc | desc.

Section criterium.
(** Items of type [T], compared by identity; [K] is [keyof T] and
    [get a k] is the attribute [a[k]]; [ltb] is JavaScript's [<] on
    attribute values. *)
Context {T K V : Type} `{EqDecision T}.
Context (get : T -> K -> V) (ltb : V -> V -> bool).

Record OrderBy := new_OrderBy { property : K; direction : OrderDirection }.

(** [new OrderBy(property, direction)], with the default value ['asc']
    for an omitted direction. *)
Definition OrderBy_constructor (property : K)
    (direction : option OrderDirection) : OrderBy :=
  new_OrderBy property (default asc direction).

(** The arrow function handed to [sort] in [apply]. *)
Definition comparator (this : OrderBy) (a b : T) : Z :=
  if ltb (get a (property this)) (get b (property this)) then
    match direction this with asc => -1 | desc => 1 end
  else if ltb (get b (property this)) (get a (property this)) then
    match direction this with asc => 1 | desc => -1 end
  else 0.

Definition OrderBy_apply (this : OrderBy) (items : loc) : M T loc :=
  Array_sort (comparator this) items.

(** Two items tie under an ordering when neither selected attribute
    value is less than the other: the comparator answers [0]. *)
Definition ties (this : OrderBy) (a b : T) : bool :=
  negb (ltb (get a (property this)) (get b (property this))) &&
  negb (ltb (get b (property this)) (get a (property this))).

(** ** Criteria and the combinators *)

(** The objects that implement [Criteria<T>]: the object literal of
    [Criteria.create], the three combinator classes, a class of the
    host program (any computation over the array store), and the
    object literal returned by [build()], which closes over the
    builder [this]. *)
Inductive Criteria :=
| Dynamic (predicate : T -> bool)
| AndCriteria (criteria otherCriteria : Criteria)
| OrCriteria (criteria otherCriteria : Criteria)
| NotCriteria (criteria : Criteria)
| HostCriteria (meet : loc -> M T loc)
| Composite (this : loc).

(** [Criteria.create(predicate)] *)
Definition create (predicate : T -> bool) : Criteria := Dynamic predicate.

(** ** builder.ts: CriteriaBuilder *)

Record CriteriaBuilder := mkBuilder {
  criteriaChain : list Criteria;
  orderBy : option OrderBy
}.

(** The store of builder objects. *)
Local Abbreviation builders := (list CriteriaBuilder).

(** [new CriteriaBuilder()] *)
Definition new_CriteriaBuilder (B : builders) : loc * builders :=
  (length B, B ++ [mkBuilder [] None]).

(** [this.criteriaChain.push(criteria); return this] *)
Definition addCriteria (this : loc) (c : Criteria) (B : builders) : loc * builders :=
  (this, alter (fun b => mkBuilder (criteriaChain b ++ [c]) (orderBy b)) this B).

(** [this.orderBy = new OrderBy(property, direction); return this],
    with the default value ['asc'] for an omitted direction. *)
Definition setOrderBy (this : loc) (p : K) (d : option OrderDirection)
    (B : builders) : loc * builders :=
  (this, alter (fun b => mkBuilder (criteriaChain b)
                          (Some (OrderBy_constructor p (Some (default asc d)))))
           this B).

(** [build()] allocates nothing in the array store and copies nothing:
    the object it returns refers to the builder. *)
Definition build (this : loc) : Criteria := Composite this.

(** [chain.reduce((res, criteria) => criteria.meetCriteria(res), items)] *)
Fixpoint reduce (call : Criteria -> loc -> M T loc)
    (chain : list Criteria) (res : loc) : M T loc :=
  match chain with
  | [] => ret res
  | c :: chain' => let* res' := call c res in reduce call chain' res'
  end.

(** ** meetCriteria *)

(** One level of method bodies; [call] runs the [meetCriteria] of the
    criteria held in a builder's chain.  In [OrCriteria] the spread
    array and the [Set] are temporaries that nothing refers to after the
    call; only the array that is returned enters the store. *)
Fixpoint meet (B : builders) (call : Criteria -> loc -> M T loc)
    (c : Criteria) (items : loc) : M T loc :=
  match c with
  | Dynamic predicate => Array_filter predicate items
  | AndCriteria criteria otherCriteria =>
      let* firstCriteriaItems := meet B call criteria items in
      meet B call otherCriteria firstCriteriaItems
  | OrCriteria criteria otherCriteria =>
      let* firstCriteriaItems := meet B call criteria items in
      let* otherCriteriaItems := meet B call otherCriteria items in
      let* first := read firstCriteriaItems in
      let* other := read otherCriteriaItems in
      alloc (Set_from (first ++ other))
  | NotCriteria criteria =>
      let* criteriaItems := meet B call criteria items in
      let* l := read items in
      let* found := read criteriaItems in
      alloc (List.filter (fun item => negb (includes found item)) l)
  | HostCriteria m => m items
  | Composite this =>
      match B !! this with
      | None => fail
      | Some b =>
          let* result := reduce call (criteriaChain b) items in
          match orderBy b with
          | Some o => OrderBy_apply o result
          | None => ret result
          end
      end
  end.

(** A composite may hold composites, even of its own builder, so the
    evaluation is bounded by [fuel], the depth of nested composite
    calls; running out of it stands for the overflow of the stack. *)
Fixpoint chained (fuel : nat) (B : builders) : Criteria -> loc -> M T loc :=
  match fuel with
  | 0 => fun _ _ => fail
  | S n => meet B (chained n B)
  end.

Definition meetCriteria (fuel : nat) (B : builders)
    (c : Criteria) (items : loc) : M T loc :=
  meet B (chained fuel B) c items.

(** [g] answers whatever [f] answers. *)
Definition below (f g : Criteria -> loc -> M T loc) : Prop :=
  forall c r h x, f c r h = Some x -> g c r h = Some x.

(** The elements of the array that [meetCriteria] returns. *)
Definition output (fuel : nat) (B : builders)
    (c : Criteria) (items : loc) (h : heap T) : option (list T) :=
  match meetCriteria fuel B c items h with
  | Some (r, h') => h' !! r
  | None => None
  end.

(** ** Side effects *)

(** A call only allocates when every array of the store it started from
    is still there, with the same elements, in the store it leaves. *)
Definition only_allocates (f : loc -> M T loc) : Prop :=
  forall items h r h', f items h = Some (r, h') -> h `prefix_of` h'.

(** A call returns a new array when the reference it returns was not in
    the store it started from. *)
Definition returns_new_array (f : loc -> M T loc) : Prop :=
  forall items h r h', f items h = Some (r, h') -> length h <= r.

(** The criteria whose host classes only allocate and whose composites
    come from the builders [ok], which are to be [tidy]. *)
Fixpoint side_effect_free (ok : loc -> Prop) (c : Criteria) : Prop :=
  match c with
  | Dynamic _ => True
  | AndCriteria a b => side_effect_free ok a /\ side_effect_free ok b
  | OrCriteria a b => side_effect_free ok a /\ side_effect_free ok b
  | NotCriteria a => side_effect_free ok a
  | HostCriteria m => only_allocates m
  | Composite this => ok this
  end.

(** The criteria that, by their shape, hand back an array of their own. *)
Fixpoint makes_new_array (c : Criteria) : Prop :=
  match c with
  | Dynamic _ => True
  | AndCriteria _ b => makes_new_array b
  | OrCriteria _ _ => True
  | NotCriteria _ => True
  | HostCriteria m => returns_new_array m
  | Composite _ => False
  end.

(** A builder is tidy when its chain is side-effect free and its
    ordering directive, if it has one, meets an array made by the last
    criteria of the chain. *)
Definition tidy (ok : loc -> Prop) (b : CriteriaBuilder) : Prop :=
  Forall (side_effect_free ok) (criteriaChain b) /\
  (orderBy b = None \/
   exists chain c, criteriaChain b = chain ++ [c] /\ makes_new_array c).

(** ** Criteria made of predicates *)

(** The criteria built from [Criteria.create] and the three combinators
    alone: no class of the host program, no composite. *)
Fixpoint plain (c : Criteria) : Prop :=
  match c with
  | Dynamic _ => True
  | AndCriteria a b => plain a /\ plain b
  | OrCriteria a b => plain a /\ plain b
  | NotCriteria a => plain a
  | HostCriteria _ => False
  | Composite _ => False
  end.

(** The predicate that a plain criteria combines out of the predicates
    given to [Criteria.create]. *)
Fixpoint holds (c : Criteria) (item : T) : bool :=
  match c with
  | Dynamic predicate => predicate item
  | AndCriteria a b => holds a item && holds b item
  | OrCriteria a b => holds a item || holds b item
  | NotCriteria a => negb (holds a item)
  | HostCriteria _ => false
  | Composite _ => false
  end.

(** Plain criteria in which no [OrCriteria] feeds its result, with the
    order of a union, into another criteria: an [OrCriteria] occurs
    only below a [NotCriteria]. *)
Fixpoint in_order (c : Criteria) : Prop :=
  match c with
  | Dynamic _ => True
  | AndCriteria a b => in_order a /\ in_order b
  | OrCriteria _ _ => False
  | NotCriteria a => plain a
  | HostCriteria _ => False
  | Composite _ => False
  end.

(** What the method bodies of a plain criteria compute on the elements
    of the input, read off [meet] with the store left out. *)
Fixpoint select (c : Criteria) (l : list T) : list T :=
  match c with
  | Dynamic predicate => List.filter predicate l
  | AndCriteria a b => select b (select a l)
  | OrCriteria a b => Set_from (select a l ++ select b l)
  | NotCriteria a =>
      List.filter (fun item => negb (includes (select a l) item)) l
  | HostCriteria _ => l
  | Composite _ => l
  end.

(** The criteria without a class of the host program; composites are
    allowed. *)
Fixpoint host_free (c : Criteria) : Prop :=
  match c with
  | Dynamic _ => True
  | AndCriteria a b => host_free a /\ host_free b
  | OrCriteria a b => host_free a /\ host_free b
  | NotCriteria a => host_free a
  | HostCriteria _ => False
  | Composite _ => True
  end.

(** Every array of [h] is still in [h'], with the same elements up to
    their order. *)
Definition reorders_only (h h' : heap T) : Prop :=
  forall r l, h !! r = Some l -> exists l', h' !! r = Some l' /\ l' ≡ₚ l.

(** What a call may do: reorder arrays, and return an array whose
    elements are among those of the array it was given. *)
Definition selects (f : loc -> M T loc) : Prop :=
  forall items h r h' l,
    f items h = Some (r, h') -> h !! items = Some l ->
    reorders_only h h' /\ exists lo, h' !! r = Some lo /\ lo ⊆ l.

End criterium.

Arguments OrderBy K : clear implicits.
Arguments Criteria T : clear implicits.
Arguments CriteriaBuilder T K : clear implicits.

Abbreviation builders T K := (list (CriteriaBuilder T K)).

(** ** The users of the README *)

Module Users.
(** The seven records of the README, as object identities. *)
Inductive User := Alice | Bob | Charlie | David | Arneis | Bacchus | Alex.

Inductive UserKey := id | age.

Definition User_get (u : User) (k : UserKey) : Z :=
  match k, u with
  | id, Alice => 1 | id, Bob => 2 | id, Charlie => 3 | id, David => 4
  | id, Arneis => 5 | id, Bacchus => 6 | id, Alex => 6
  | age, Alice => 25 | age, Bob => 30 | age, Charlie => 35 | age, David => 40
  | age, Arneis => 55 | age, Bacchus => 14 | age, Alex => 35
  end%Z.

#[global] Instance User_eq_dec : EqDecision User.
Proof. solve_decision. Defined.

Definition data : list User := [Alice; Bob; Charlie; David; Arneis; Bacchus; Alex].

(** [meetCriteria] over users, attributes compared as numbers. *)
Definition run fuel (B : builders User UserKey) c items :=
  meetCriteria User_get Z.ltb fuel B c items.

Definition out fuel (B : builders User UserKey) c items :=
  output User_get Z.ltb fuel B c items.

Definition AgeCriteria (minAge maxAge : Z) : Criteria User :=
  HostCriteria (Array_filter (fun item =>
    (minAge <=? User_get item age)%Z && (User_get item age <=? maxAge)%Z)).

(** The names that start with "A". *)
Definition named_A (item : User) : bool :=
  match item with Alice | Arneis | Alex => true | _ => false end.

(** The README's [NameStartsWithCriteria("A")]. *)
Definition NameStartsWithA : Criteria User :=
  HostCriteria (Array_filter named_A).

Definition thirties (item : User) : bool :=
  (30 <=? User_get item age)%Z && (User_get item age <=? 40)%Z.

(** Predicates for [Criteria.create]. *)
Definition adult (user : User) : bool := (18 <? User_get user age)%Z.
Definition senior (user : User) : bool := (32 <? User_get user age)%Z.
Definition nobody (user : User) : bool := false.

(** A builder with no criteria and an ordering by age, made through the
    builder's own methods. *)
Definition sort_only (d : OrderDirection) : builders User UserKey :=
  (setOrderBy 0 age (Some d) (new_CriteriaBuilder []).2).2.

End Users.

(** * Properties *)

(** ** The store monad *)

Section monad_facts.
Context {T : Type}.
Implicit Types h : heap T.

Lemma bind_Some {A C} (m : M T A) (k : A -> M T C) h x :
  bind m k h = Some x <-> exists a h', m h = Some (a, h') /\ k a h' = Some x.
Proof.
  unfold bind. destruct (m h) as [[a h']|]; split.
  - eauto.
  - intros (a0 & h0 & [= <- <-] & Hk). exact Hk.
  - discriminate.
  - intros (a0 & h0 & [=] & _).
Qed.

Lemma bind_run {A C} (m : M T A) (k : A -> M T C) h a h' :
  m h = Some (a, h') -> bind m k h = k a h'.
Proof. unfold bind. intros ->. reflexivity. Qed.

Lemma read_Some r h l : h !! r = Some l -> read r h = Some (l, h).
Proof. unfold read. intros ->. reflexivity. Qed.

Lemma read_inv r h x : read r h = Some x -> h !! r = Some x.1 /\ x.2 = h.
Proof. unfold read. destruct (h !! r); intros [= <-]; auto. Qed.

Lemma write_Some r h l l' :
  h !! r = Some l -> write r l' h = Some (tt, <[r := l']> h).
Proof. unfold write. intros ->. reflexivity. Qed.

Lemma alloc_lookup_new h (l : list T) : (h ++ [l]) !! length h = Some l.
Proof. apply list_lookup_middle. reflexivity. Qed.

Lemma alloc_lookup_old h (l : list T) r :
  r < length h -> (h ++ [l]) !! r = h !! r.
Proof. intros. apply lookup_app_l. assumption. Qed.
End monad_facts.

(** ** Sets in insertion order *)

Section set_facts.
Context {T : Type} `{EqDecision T}.
Implicit Types l acc : list T.

Lemma filter_filter (p q : T -> bool) l :
  List.filter p (List.filter q l) = List.filter (fun y => q y && p y) l.
Proof.
  induction l as [|x l IH]; simpl; [reflexivity|].
  destruct (q x); simpl; [destruct (p x)|]; rewrite IH; reflexivity.
Qed.

Lemma filter_ext_elem (p q : T -> bool) l :
  (forall y, y ∈ l -> p y = q y) -> List.filter p l = List.filter q l.
Proof.
  intros Hpq. apply List.filter_ext_in. intros y Hy.
  apply Hpq, list_elem_of_In, Hy.
Qed.

Lemma includes_true l x : includes l x = true <-> x ∈ l.
Proof. unfold includes. apply bool_decide_eq_true. Qed.

Lemma includes_false l x : includes l x = false <-> x ∉ l.
Proof. unfold includes. apply bool_decide_eq_false. Qed.

Lemma elem_of_List_filter (p : T -> bool) l x :
  x ∈ List.filter p l <-> x ∈ l /\ p x = true.
Proof. rewrite !list_elem_of_In. apply filter_In. Qed.

Lemma elem_of_first_occurrences l x : x ∈ first_occurrences l <-> x ∈ l.
Proof.
  induction l as [|a l IH]; simpl; [reflexivity|].
  rewrite !elem_of_cons, elem_of_List_filter, IH, negb_true_iff,
    bool_decide_eq_false.
  destruct (decide (x = a)); tauto.
Qed.

Lemma first_occurrences_NoDup l : NoDup (first_occurrences l).
Proof.
  induction l as [|a l IH]; simpl; constructor.
  - rewrite elem_of_List_filter, negb_true_iff, bool_decide_eq_false. tauto.
  - apply NoDup_ListNoDup, List.NoDup_filter, NoDup_ListNoDup, IH.
Qed.

Lemma first_occurrences_id l : NoDup l -> first_occurrences l = l.
Proof.
  induction 1 as [|a l Ha Hl IH]; simpl; [reflexivity|].
  rewrite IH. f_equal.
  rewrite <- (List.filter_true l) at 2. apply filter_ext_elem.
  intros y Hy. apply negb_true_iff, bool_decide_eq_false. congruence.
Qed.

(** Adding the elements of [l] to a set that already iterates as [acc]. *)
Lemma fold_Set_add l acc :
  fold_left Set_add l acc =
  acc ++ List.filter (fun y => negb (includes acc y)) (first_occurrences l).
Proof.
  revert acc. induction l as [|x l IH]; intros acc; simpl.
  - rewrite app_nil_r. reflexivity.
  - rewrite IH. unfold Set_add. destruct (includes acc x) eqn:Hx; simpl.
    + f_equal. rewrite filter_filter. apply filter_ext_elem.
      intros y _. apply includes_true in Hx.
      destruct (includes acc y) eqn:Hy; simpl; [symmetry; apply andb_false_r|].
      apply includes_false in Hy. rewrite andb_true_r. symmetry.
      apply negb_true_iff, bool_decide_eq_false. congruence.
    + rewrite <- app_assoc. simpl. do 2 f_equal.
      rewrite filter_filter. apply filter_ext_elem. intros y _.
      apply eq_true_iff_eq.
      rewrite andb_true_iff, !negb_true_iff, !includes_false,
        bool_decide_eq_false, not_elem_of_app, list_elem_of_singleton.
      tauto.
Qed.

Lemma Set_from_first_occurrences l : Set_from l = first_occurrences l.
Proof.
  unfold Set_from. rewrite fold_Set_add. simpl.
  rewrite <- (List.filter_true (first_occurrences l)) at 2.
  apply filter_ext_elem. reflexivity.
Qed.

(** The array made from the set of the two results is the union the
    specification describes. *)
Lemma Set_from_app (first other : list T) :
  Set_from (first ++ other) = union_in_order first other.
Proof.
  unfold Set_from, union_in_order. rewrite fold_left_app.
  fold (Set_from first). rewrite Set_from_first_occurrences, fold_Set_add.
  f_equal. apply filter_ext_elem. intros y _. f_equal.
  apply eq_true_iff_eq.
  rewrite !includes_true. apply elem_of_first_occurrences.
Qed.
End set_facts.

(** ** The stable sort *)

Section sort_facts.
Context {T : Type} (comparefn : T -> T -> Z).

Lemma sort_insert_perm x l : sort_insert comparefn x l ≡ₚ x :: l.
Proof.
  induction l as [|y l IH]; simpl; [reflexivity|].
  destruct (0 <? comparefn x y)%Z; [|reflexivity].
  rewrite IH. apply perm_swap.
Qed.

Lemma sorted_by_perm l : sorted_by comparefn l ≡ₚ l.
Proof.
  induction l as [|x l IH]; simpl; [reflexivity|].
  rewrite sort_insert_perm, IH. reflexivity.
Qed.

Lemma StronglySorted_weaken (R R' : T -> T -> Prop) l :
  (forall a b, R a b -> R' a b) -> StronglySorted R l -> StronglySorted R' l.
Proof.
  intros HR. induction 1 as [|x l Hl IH Hx]; constructor; [exact IH|].
  eapply Forall_impl; [exact Hx|]. intros y. apply HR.
Qed.

Section consistent.
(** A consistent comparator: a positive answer is answered by a
    non-positive one the other way round, and "not after" is
    transitive. *)
Hypothesis comparefn_anti :
  forall a b, (0 < comparefn a b)%Z -> (comparefn b a <= 0)%Z.
Hypothesis comparefn_trans :
  forall a b c, (comparefn a b <= 0)%Z -> (comparefn b c <= 0)%Z ->
                (comparefn a c <= 0)%Z.

Lemma sort_insert_sorted x l :
  StronglySorted (fun a b => (comparefn a b <= 0)%Z) l ->
  StronglySorted (fun a b => (comparefn a b <= 0)%Z) (sort_insert comparefn x l).
Proof using comparefn_anti comparefn_trans.
  induction 1 as [|y l Hl IH Hy]; simpl.
  - repeat constructor.
  - destruct (0 <? comparefn x y)%Z eqn:Hxy.
    + apply Z.ltb_lt in Hxy. constructor; [exact IH|].
      rewrite sort_insert_perm. constructor; [auto | exact Hy].
    + apply Z.ltb_ge in Hxy. constructor; [constructor; assumption|].
      constructor; [exact Hxy|].
      eapply Forall_impl; [exact Hy|]. intros z Hz. eauto.
Qed.

Lemma sorted_by_sorted l :
  StronglySorted (fun a b => (comparefn a b <= 0)%Z) (sorted_by comparefn l).
Proof using comparefn_anti comparefn_trans.
  induction l as [|x l IH]; simpl; [constructor|].
  apply sort_insert_sorted, IH.
Qed.
End consistent.

Section stable.
(** [tie x] selects a class of items that the comparator never orders
    one after the other. *)
Context (tie : T -> T -> bool).
Hypothesis tie_keeps :
  forall x a y, tie x a = true -> tie x y = true -> (comparefn a y <= 0)%Z.

Lemma sort_insert_stable x a l :
  List.filter (tie x) (sort_insert comparefn a l) = List.filter (tie x) (a :: l).
Proof using tie_keeps.
  induction l as [|y l IH]; [reflexivity|].
  cbn [sort_insert]. destruct (0 <? comparefn a y)%Z eqn:Hay; [|reflexivity].
  apply Z.ltb_lt in Hay. cbn [List.filter] in *. rewrite IH.
  destruct (tie x a) eqn:Ha, (tie x y) eqn:Hy; try reflexivity.
  pose proof (tie_keeps x a y Ha Hy). lia.
Qed.

Lemma sorted_by_stable x l :
  List.filter (tie x) (sorted_by comparefn l) = List.filter (tie x) l.
Proof using tie_keeps.
  induction l as [|a l IH]; [reflexivity|].
  cbn [sorted_by foldr]. fold (sorted_by comparefn l).
  rewrite sort_insert_stable. cbn [List.filter]. rewrite IH. reflexivity.
Qed.
End stable.
Section determined.
(** Whatever algorithm the engine runs, a stable sort that follows a
    consistent comparator has one possible result. *)
Context (tie : T -> T -> bool).
Hypothesis tie_refl : forall x, tie x x = true.
Hypothesis tie_both :
  forall a b, (comparefn a b <= 0)%Z -> (comparefn b a <= 0)%Z -> tie a b = true.

Lemma stable_sorted_unique l1 l2 :
  l1 ≡ₚ l2 ->
  StronglySorted (fun a b => (comparefn a b <= 0)%Z) l1 ->
  StronglySorted (fun a b => (comparefn a b <= 0)%Z) l2 ->
  (forall x, List.filter (tie x) l1 = List.filter (tie x) l2) ->
  l1 = l2.
Proof using tie_refl tie_both.
  revert l2. induction l1 as [|a l1 IH]; intros l2 Hperm Hs1 Hs2 Hst.
  - symmetry. apply Permutation_nil, Hperm.
  - destruct l2 as [|b l2];
      [symmetry in Hperm; apply Permutation_nil_cons in Hperm as []|].
    apply StronglySorted_inv in Hs1 as [Hs1 Ha].
    apply StronglySorted_inv in Hs2 as [Hs2 Hb].
    assert (a = b) as <-.
    { assert (b ∈ a :: l1) as Hin1 by (rewrite Hperm; left).
      assert (a ∈ b :: l2) as Hin2 by (rewrite <- Hperm; left).
      apply elem_of_cons in Hin1 as [->|Hin1]; [reflexivity|].
      apply elem_of_cons in Hin2 as [->|Hin2]; [reflexivity|].
      rewrite Forall_forall in Ha, Hb.
      pose proof (Hst a) as Hhead. simpl in Hhead.
      rewrite tie_refl, (tie_both a b) in Hhead; [congruence | |].
      - apply Ha, Hin1.
      - apply Hb, Hin2. }
    f_equal. apply IH; [|assumption..|].
    + eapply Permutation_cons_inv, Hperm.
    + intros x. specialize (Hst x). simpl in Hst.
      destruct (tie x a); congruence.
Qed.
End determined.
End sort_facts.

(** ** Evaluation *)

Section criterium_facts.
Context {T K V : Type} `{EqDecision T}.
Context (get : T -> K -> V) (ltb : V -> V -> bool).
Implicit Types (h : heap T) (B : builders T K) (c : Criteria T).

Local Abbreviation meetCriteria := (meetCriteria get ltb).
Local Abbreviation chained := (chained get ltb).
Local Abbreviation meet := (meet get ltb).
Local Abbreviation OrderBy_apply := (OrderBy_apply get ltb).
Local Abbreviation comparator := (comparator get ltb).

(** The criteria of a chain run one composite call deeper. *)
Lemma chained_S fuel B : chained (S fuel) B = meetCriteria fuel B.
Proof. reflexivity. Qed.

Lemma meetCriteria_Composite fuel B this items h :
  meetCriteria (S fuel) B (Composite this) items h =
  match B !! this with
  | None => None
  | Some b =>
      (let* result := reduce (meetCriteria fuel B) (criteriaChain b) items in
       match orderBy b with
       | Some o => OrderBy_apply o result
       | None => ret result
       end) h
  end.
Proof.
  unfold meetCriteria at 1. simpl.
  destruct (B !! this); reflexivity.
Qed.

(** *** More fuel never changes a result *)

Lemma reduce_below f g chain r h x :
  below f g -> reduce f chain r h = Some x -> reduce g chain r h = Some x.
Proof.
  intros Hfg. revert r h.
  induction chain as [|c chain IH]; intros r h; simpl; [auto|].
  intros (r' & h' & Hc & Hrest)%bind_Some.
  apply bind_Some. exists r', h'. split; [apply Hfg, Hc | apply IH, Hrest].
Qed.

Lemma meet_below B f g : below f g -> below (meet B f) (meet B g).
Proof.
  intros Hfg c. induction c as [p|a IHa b IHb|a IHa b IHb|a IHa|m|this];
    intros r h x; simpl.
  - auto.
  - intros (r1 & h1 & Ha & Hb)%bind_Some.
    apply bind_Some. exists r1, h1. split; [apply IHa, Ha | apply IHb, Hb].
  - intros (r1 & h1 & Ha & (r2 & h2 & Hb & Hk)%bind_Some)%bind_Some.
    apply bind_Some. exists r1, h1. split; [apply IHa, Ha|].
    apply bind_Some. exists r2, h2. split; [apply IHb, Hb | exact Hk].
  - intros (r1 & h1 & Ha & Hk)%bind_Some.
    apply bind_Some. exists r1, h1. split; [apply IHa, Ha | exact Hk].
  - auto.
  - destruct (B !! this) as [b|]; [|auto].
    intros (r1 & h1 & Hred & Hk)%bind_Some.
    apply bind_Some. exists r1, h1. split; [|exact Hk].
    eapply reduce_below; eassumption.
Qed.

Lemma chained_below fuel B : below (chained fuel B) (chained (S fuel) B).
Proof.
  induction fuel as [|n IH].
  - intros c r h x. discriminate.
  - apply (meet_below B), IH.
Qed.

Lemma meetCriteria_fuel_mono n m B c items h x :
  n <= m ->
  meetCriteria n B c items h = Some x -> meetCriteria m B c items h = Some x.
Proof.
  induction 1 as [|m Hle IH]; [auto|].
  intros Hn. apply (chained_below (S m) B), IH, Hn.
Qed.

(** ** Criteria.create *)

Lemma Array_filter_allocates (p : T -> bool) items h r h' :
  Array_filter p items h = Some (r, h') ->
  r = length h /\ exists l, h' = h ++ [l].
Proof.
  unfold Array_filter. intros (l & h0 & Hread & Halloc)%bind_Some.
  apply read_inv in Hread as [_ Hh0]. simpl in Hh0. subst h0.
  unfold alloc in Halloc. injection Halloc as <- <-. eauto.
Qed.


Lemma filter_sublist (p : T -> bool) (l : list T) :
  List.filter p l `sublist_of` l.
Proof.
  induction l as [|x l IH]; simpl; [constructor|].
  destruct (p x); constructor; exact IH.
Qed.

(** C8: the criteria made by [Criteria.create(p)] returns a new array
    holding exactly the items of the input for which [p] is true, in
    their original relative order: the result is [filter p] of the
    input, a subsequence of it, and the input array is as it was; the
    empty input gives the empty output. *)
Theorem create_meetCriteria_filter fuel B (p : T -> bool) items h l :
  h !! items = Some l ->
  exists h',
    meetCriteria fuel B (create p) items h = Some (length h, h') /\
    h' !! length h = Some (List.filter p l) /\
    h' !! items = Some l /\
    List.filter p l `sublist_of` l /\
    (forall x, x ∈ List.filter p l <-> x ∈ l /\ p x = true) /\
    (l = [] -> List.filter p l = []).
Proof.
  intros Hl. exists (h ++ [List.filter p l]).
split; [|split; [|split; [|split; [|split]]]].
- unfold meetCriteria. simpl. unfold Array_filter.
  rewrite (bind_run _ _ _ _ _ (read_Some _ _ _ Hl)). reflexivity.
- apply alloc_lookup_new.
- rewrite alloc_lookup_old; [exact Hl|]. eapply lookup_lt_Some, Hl.
- apply filter_sublist.
- intros x. rewrite !list_elem_of_In, filter_In. tauto.
- intros ->. reflexivity.
Qed.

(** ** AndCriteria *)

(** C4: [And(a,b).meetCriteria(items)] is [b.meetCriteria] run on the
    array that [a.meetCriteria(items)] returned, in the store [a] left:
    the second criteria is given the first one's result, not the
    original input.  For two criteria made by [Criteria.create] the
    result is the second filter of the first filter of the input, held
    by the second of two new arrays. *)
Theorem AndCriteria_meetCriteria_sequential :
  (forall fuel B a b items h,
     meetCriteria fuel B (AndCriteria a b) items h =
     match meetCriteria fuel B a items h with
     | Some (firstCriteriaItems, h1) =>
         meetCriteria fuel B b firstCriteriaItems h1
     | None => None
     end) /\
  (forall fuel B (p q : T -> bool) items h l,
     h !! items = Some l ->
     meetCriteria fuel B (AndCriteria (create p) (create q)) items h =
     Some (S (length h),
           h ++ [List.filter p l; List.filter q (List.filter p l)])).
Proof.
  split; [reflexivity|].
  intros fuel B p q items h l Hl.
  unfold meetCriteria, create. cbn [meet].
  unfold Array_filter, bind, read, alloc. rewrite Hl.
  rewrite alloc_lookup_new, length_app, <- app_assoc. simpl.
  do 2 f_equal. lia.
Qed.

(** ** OrCriteria *)

Lemma OrCriteria_run fuel B a b items h ra h1 rb h2 first other :
  meetCriteria fuel B a items h = Some (ra, h1) ->
  meetCriteria fuel B b items h1 = Some (rb, h2) ->
  h2 !! ra = Some first ->
  h2 !! rb = Some other ->
  meetCriteria fuel B (OrCriteria a b) items h =
  Some (length h2, h2 ++ [Set_from (first ++ other)]).
Proof.
  intros Ha Hb Hfirst Hother.
  unfold meetCriteria in *. cbn [meet].
  rewrite (bind_run _ _ _ _ _ Ha), (bind_run _ _ _ _ _ Hb).
  rewrite (bind_run _ _ _ _ _ (read_Some _ _ _ Hfirst)).
  rewrite (bind_run _ _ _ _ _ (read_Some _ _ _ Hother)).
  reflexivity.
Qed.

(** C2, as the code has it: [Or(a,b).meetCriteria(items)] runs [a] and
    then [b] on the input and returns a new array: the elements of the
    array [a] returned, in their order, followed by the elements of the
    array [b] returned that are not among them, in their order, each
    element once (by identity), both arrays read once [b] has run.  For
    three distinct items [X], [Y], [Z], the matches [X, Z] and [Y, X]
    give [X, Z, Y]. *)
Theorem OrCriteria_union_in_order fuel B a b items h ra h1 rb h2 first other :
  meetCriteria fuel B a items h = Some (ra, h1) ->
  meetCriteria fuel B b items h1 = Some (rb, h2) ->
  h2 !! ra = Some first ->
  h2 !! rb = Some other ->
  meetCriteria fuel B (OrCriteria a b) items h =
    Some (length h2, h2 ++ [union_in_order first other]) /\
  NoDup (union_in_order first other) /\
  (forall x, x ∈ union_in_order first other <-> x ∈ first \/ x ∈ other) /\
  (NoDup first ->
   union_in_order first other =
   first ++ List.filter (fun y => negb (includes first y))
              (first_occurrences other)) /\
  (forall X Y Z : T, X <> Y -> X <> Z -> Y <> Z ->
   union_in_order [X; Z] [Y; X] = [X; Z; Y]).
Proof.
  intros Ha Hb Hfirst Hother. split; [|split; [|split; [|split]]].
  - rewrite <- Set_from_app. eapply OrCriteria_run; eassumption.
  - rewrite <- Set_from_app, Set_from_first_occurrences.
    apply first_occurrences_NoDup.
  - intros x. rewrite <- Set_from_app, Set_from_first_occurrences,
      elem_of_first_occurrences. apply elem_of_app.
  - intros Hnd. unfold union_in_order.
    rewrite (first_occurrences_id first Hnd). reflexivity.
  - intros X Y Z HXY HXZ HYZ. unfold union_in_order, includes. simpl.
    rewrite (bool_decide_eq_false_2 (Z = X)) by congruence.
    rewrite (bool_decide_eq_false_2 (X = Y)) by congruence. simpl.
    rewrite (bool_decide_eq_false_2 (Y ∈ [X; Z])).
    2:{ rewrite !elem_of_cons, elem_of_nil. intuition congruence. }
    rewrite (bool_decide_eq_true_2 (X ∈ [X; Z])) by apply list_elem_of_here.
    reflexivity.
Qed.

(** ** NotCriteria *)

(** C5, as the code has it: [Not(c).meetCriteria(items)] runs [c] on the
    input and then returns a new array with exactly the elements of the
    input array, read once [c] has run, that are not present (by
    identity) in the array [c] returned, in the order the input array
    has them. *)
Theorem NotCriteria_complement fuel B c items h rc h1 l found :
  meetCriteria fuel B c items h = Some (rc, h1) ->
  h1 !! items = Some l ->
  h1 !! rc = Some found ->
  let result := List.filter (fun item => negb (includes found item)) l in
  meetCriteria fuel B (NotCriteria c) items h =
    Some (length h1, h1 ++ [result]) /\
  (forall x, x ∈ result <-> x ∈ l /\ x ∉ found) /\
  result `sublist_of` l.
Proof.
  intros Hc Hl Hfound result. split; [|split].
  - unfold meetCriteria in *. cbn [meet].
    rewrite (bind_run _ _ _ _ _ Hc).
    rewrite (bind_run _ _ _ _ _ (read_Some _ _ _ Hl)).
    rewrite (bind_run _ _ _ _ _ (read_Some _ _ _ Hfound)).
    reflexivity.
  - intros x. unfold result.
    rewrite elem_of_List_filter, negb_true_iff, includes_false. reflexivity.
  - apply filter_sublist.
Qed.

(** ** OrderBy.apply *)

Lemma Array_sort_Some (comparefn : T -> T -> Z) items h l :
  h !! items = Some l ->
  Array_sort comparefn items h =
  Some (items, <[items := sorted_by comparefn l]> h).
Proof.
  intros Hl. unfold Array_sort.
  rewrite (bind_run _ _ _ _ _ (read_Some _ _ _ Hl)).
  rewrite (bind_run _ _ _ _ _ (write_Some _ _ _ _ Hl)). reflexivity.
Qed.

Lemma Array_sort_inv (comparefn : T -> T -> Z) items h x :
  Array_sort comparefn items h = Some x ->
  exists l, h !! items = Some l /\
            x = (items, <[items := sorted_by comparefn l]> h).
Proof.
  destruct (h !! items) as [l|] eqn:Hl.
  - rewrite (Array_sort_Some _ _ _ _ Hl). intros [= <-]. eauto.
  - unfold Array_sort, bind, read. rewrite Hl. discriminate.
Qed.

(** C10: [apply] sorts the array it is given in place and returns that
    very reference: the store has as many arrays after the call as
    before, the caller's array now holds the sorted elements, and every
    other array is as it was. *)
Theorem OrderBy_apply_in_place (o : OrderBy K) items h l :
  h !! items = Some l ->
  exists h',
    OrderBy_apply o items h = Some (items, h') /\
    length h' = length h /\
    h' !! items = Some (sorted_by (comparator o) l) /\
    (forall r, r <> items -> h' !! r = h !! r).
Proof.
  intros Hl. exists (<[items := sorted_by (comparator o) l]> h).
  split; [|split; [|split]].
  - apply Array_sort_Some, Hl.
  - apply length_insert.
  - apply list_lookup_insert_eq. eapply lookup_lt_Some, Hl.
  - intros r Hr. apply list_lookup_insert_ne. congruence.
Qed.

(** ** CriteriaBuilder *)

Lemma new_CriteriaBuilder_lookup B :
  (new_CriteriaBuilder B).2 !! (new_CriteriaBuilder B).1 = Some (mkBuilder [] None).
Proof. apply list_lookup_middle. reflexivity. Qed.

(** C7: the composite built from a new builder, with no criteria added
    and no ordering set, returns the very array it is given and leaves
    the store as it is, whatever the array holds. *)
Theorem build_empty_identity fuel B items h :
  meetCriteria fuel (new_CriteriaBuilder B).2
    (build (new_CriteriaBuilder B).1) items h = Some (items, h).
Proof.
  unfold meetCriteria, build. simpl meet.
  pose proof (new_CriteriaBuilder_lookup B) as Hb. simpl in Hb.
  rewrite Hb. reflexivity.
Qed.

Lemma addCriteria_lookup B this c b :
  B !! this = Some b ->
  (addCriteria this c B).2 !! this =
  Some (mkBuilder (criteriaChain b ++ [c]) (orderBy b)).
Proof. intros Hb. simpl. rewrite list_lookup_alter_eq, Hb. reflexivity. Qed.

Lemma setOrderBy_lookup B this (k : K) d b :
  B !! this = Some b ->
  (setOrderBy this k d B).2 !! this =
  Some (mkBuilder (criteriaChain b) (Some (new_OrderBy k (default asc d)))).
Proof. intros Hb. simpl. rewrite list_lookup_alter_eq, Hb. reflexivity. Qed.

Lemma reduce_app (call : Criteria T -> loc -> M T loc) chain chain' r h :
  reduce call (chain ++ chain') r h =
  (let* r' := reduce call chain r in reduce call chain' r') h.
Proof.
  revert r h. induction chain as [|c chain IH]; intros r h; simpl.
  - reflexivity.
  - unfold bind. destruct (call c r h) as [[r1 h1]|]; [|reflexivity].
    rewrite IH. reflexivity.
Qed.

(** C3: the composite built by
    [addCriteria(a).addCriteria(b).setOrderBy(k,"desc").build()] on a
    new builder evaluates as [OrderBy(k,"desc").apply] of [b] run on the
    result of [a]; and for any builder, the composite folds the input
    through the chain from left to right, each result feeding the next
    criteria, and then applies the ordering directive if one is set.
    The criteria of the chain run one call deeper than the composite,
    hence [S fuel] on the left. *)
Theorem build_meetCriteria_fold :
  (forall fuel B a b (k : K) items h,
     let B0 := new_CriteriaBuilder B in
     let B1 := addCriteria B0.1 a B0.2 in
     let B2 := addCriteria B1.1 b B1.2 in
     let B3 := setOrderBy B2.1 k (Some desc) B2.2 in
     meetCriteria (S fuel) B3.2 (build B3.1) items h =
     (let* ra := meetCriteria fuel B3.2 a items in
      let* rb := meetCriteria fuel B3.2 b ra in
      OrderBy_apply (new_OrderBy k desc) rb) h) /\
  (forall fuel B this b items h,
     B !! this = Some b ->
     meetCriteria (S fuel) B (build this) items h =
     (let* result := reduce (meetCriteria fuel B) (criteriaChain b) items in
      match orderBy b with
      | Some o => OrderBy_apply o result
      | None => ret result
      end) h) /\
  (forall (call : Criteria T -> loc -> M T loc) chain c items h,
     reduce call (chain ++ [c]) items h =
     (let* result := reduce call chain items in call c result) h).
Proof.
  split; [|split].
  - intros fuel B a b k items h B0 B1 B2 B3.
    unfold build. rewrite meetCriteria_Composite.
    assert (B3.2 !! B3.1 =
            Some (mkBuilder [a; b] (Some (new_OrderBy k desc)))) as ->.
    { subst B3 B2 B1 B0.
      rewrite (setOrderBy_lookup _ _ _ _ (mkBuilder [a; b] None)); [reflexivity|].
      rewrite (addCriteria_lookup _ _ _ (mkBuilder [a] None)); [reflexivity|].
      rewrite (addCriteria_lookup _ _ _ (mkBuilder [] None)); [reflexivity|].
      apply new_CriteriaBuilder_lookup. }
    generalize B3.2. intros B'.
    cbn [criteriaChain orderBy reduce]. unfold bind, ret.
    destruct (meetCriteria fuel B' a items h) as [[ra h1]|]; [|reflexivity].
    destruct (meetCriteria fuel B' b ra h1) as [[rb h2]|]; reflexivity.
  - intros fuel B this b items h Hb. unfold build.
    rewrite meetCriteria_Composite, Hb. reflexivity.
  - intros call chain c items h. rewrite reduce_app.
    unfold bind. destruct (reduce call chain items h) as [[r h1]|]; [|reflexivity].
    simpl. unfold bind, ret. destruct (call c r h1) as [[r2 h2]|]; reflexivity.
Qed.

(** ** OrderBy: direction and stability *)

Section ordering.
(** The natural ordering of the attribute values: [<] is asymmetric and
    "not less than" is transitive (a strict weak order, as on numbers
    and on strings). *)
Hypothesis ltb_asym : forall x y, ltb x y = true -> ltb y x = false.
Hypothesis ltb_negtrans :
  forall x y z, ltb x y = false -> ltb y z = false -> ltb x z = false.

Lemma comparator_le o a b :
  (comparator o a b <= 0)%Z <->
  match direction o with
  | asc => ltb (get b (property o)) (get a (property o)) = false
  | desc => ltb (get a (property o)) (get b (property o)) = false
  end.
Proof using ltb_asym.
  unfold comparator.
  destruct (ltb (get a (property o)) (get b (property o))) eqn:Hab,
           (ltb (get b (property o)) (get a (property o))) eqn:Hba,
           (direction o); try (split; [reflexivity | lia]);
    try (split; [lia | discriminate]).
  all: apply ltb_asym in Hab; congruence.
Qed.

Lemma comparator_anti o a b :
  (0 < comparator o a b)%Z -> (comparator o b a <= 0)%Z.
Proof using ltb_asym.
  intros Hpos. apply comparator_le.
  assert (~ (comparator o a b <= 0)%Z) as Hn by lia.
  rewrite comparator_le in Hn.
  destruct (direction o).
  - apply ltb_asym. destruct (ltb (get b (property o)) (get a (property o)));
      [reflexivity | contradiction].
  - apply ltb_asym. destruct (ltb (get a (property o)) (get b (property o)));
      [reflexivity | contradiction].
Qed.

Lemma comparator_trans o (x y z : T) :
  (comparator o x y <= 0)%Z -> (comparator o y z <= 0)%Z ->
  (comparator o x z <= 0)%Z.
Proof using ltb_asym ltb_negtrans.
  rewrite !comparator_le. destruct (direction o); eauto.
Qed.

Lemma ties_keeps o x a y :
  ties get ltb o x a = true -> ties get ltb o x y = true ->
  (comparator o a y <= 0)%Z.
Proof using ltb_asym ltb_negtrans.
  unfold ties. rewrite !andb_true_iff, !negb_true_iff.
  intros [Hxa Hax] [Hxy Hyx]. apply comparator_le.
  destruct (direction o); eauto.
Qed.

Lemma ltb_irrefl x : ltb x x = false.
Proof using ltb_asym.
  destruct (ltb x x) eqn:Hx; [|reflexivity]. rewrite <- Hx at 1.
  apply ltb_asym, Hx.
Qed.

(** The result of the modelled sort is the only list that rearranges the
    input, follows the comparator and keeps ties in input order. *)
Lemma sorted_by_comparator_unique o (l l' : list T) :
  l' ≡ₚ l ->
  StronglySorted (fun a b => (comparator o a b <= 0)%Z) l' ->
  (forall x, List.filter (ties get ltb o x) l' = List.filter (ties get ltb o x) l) ->
  l' = sorted_by (comparator o) l.
Proof using ltb_asym ltb_negtrans.
  intros Hperm Hsorted Hstable.
  apply (stable_sorted_unique (comparator o) (ties get ltb o)).
  - intros x. unfold ties. rewrite ltb_irrefl. reflexivity.
  - intros a b Hab Hba. apply comparator_le in Hab, Hba. unfold ties.
    destruct (direction o); rewrite Hab, Hba; reflexivity.
  - rewrite Hperm. symmetry. apply sorted_by_perm.
  - exact Hsorted.
  - apply sorted_by_sorted; [apply comparator_anti | apply comparator_trans].
  - intros x. rewrite Hstable. symmetry.
    apply sorted_by_stable, ties_keeps.
Qed.

(** C6: [apply] sorts the array by the selected attribute, in place: the
    result is a rearrangement of the input in which no item is followed
    by one with a smaller attribute (ascending) or a greater one
    (descending); the descending comparator is the ascending one with
    every outcome negated; and in both directions the sort is stable:
    the items that tie with any given item keep their input order. *)
Theorem OrderBy_apply_stable (o : OrderBy K) items h l :
  h !! items = Some l ->
  OrderBy_apply o items h =
    Some (items, <[items := sorted_by (comparator o) l]> h) /\
  sorted_by (comparator o) l ≡ₚ l /\
  StronglySorted
    (fun a b => match direction o with
                | asc => ltb (get b (property o)) (get a (property o)) = false
                | desc => ltb (get a (property o)) (get b (property o)) = false
                end)
    (sorted_by (comparator o) l) /\
  (forall a b, comparator (new_OrderBy (property o) desc) a b =
               (- comparator (new_OrderBy (property o) asc) a b)%Z) /\
  (forall x, List.filter (ties get ltb o x) (sorted_by (comparator o) l) =
             List.filter (ties get ltb o x) l).
Proof using ltb_asym ltb_negtrans.
  intros Hl. split; [|split; [|split; [|split]]].
  - apply Array_sort_Some, Hl.
  - apply sorted_by_perm.
  - eapply StronglySorted_weaken;
      [|apply (sorted_by_sorted _ (comparator_anti o) (comparator_trans o))].
    intros a b. apply comparator_le.
  - intros a b. unfold comparator. simpl.
    destruct (ltb (get a (property o)) (get b (property o))),
             (ltb (get b (property o)) (get a (property o))); reflexivity.
  - intros x. apply sorted_by_stable. apply ties_keeps.
Qed.
End ordering.

(** ** Side effects *)

Lemma prefix_of_alloc h (l : list T) : h `prefix_of` h ++ [l].
Proof. exists [l]. reflexivity. Qed.

Lemma prefix_of_sort_new h h1 r (l : list T) :
  h `prefix_of` h1 -> length h <= r -> h `prefix_of` <[r := l]> h1.
Proof.
  intros [k ->] Hr. rewrite insert_app_r_alt by exact Hr.
  eexists. reflexivity.
Qed.

Section frame.
Context (ok : loc -> Prop) (B : builders T K).
Context (call : Criteria T -> loc -> M T loc).
Hypothesis B_tidy : forall this b, ok this -> B !! this = Some b -> tidy ok b.
Hypothesis call_allocates :
  forall c, side_effect_free ok c -> only_allocates (call c).
Hypothesis call_new :
  forall c, side_effect_free ok c -> makes_new_array c ->
            returns_new_array (call c).

Lemma reduce_only_allocates chain items h r h' :
  Forall (side_effect_free ok) chain ->
  reduce call chain items h = Some (r, h') -> h `prefix_of` h'.
Proof using call_allocates.
  intros Hchain. revert items h.
  induction Hchain as [|c chain Hc _ IH]; intros items h; simpl.
  - intros [= <- <-]. reflexivity.
  - intros (r1 & h1 & Hcall & Hrest)%bind_Some.
    etrans; [eapply call_allocates, Hcall; exact Hc | eapply IH, Hrest].
Qed.

Lemma meet_frame c :
  side_effect_free ok c ->
  only_allocates (meet B call c) /\
  (makes_new_array c -> returns_new_array (meet B call c)).
Proof using B_tidy call_allocates call_new.
  induction c as [p|a IHa b IHb|a IHa b IHb|a IHa|m|this]; simpl.
  - intros _. split; [|intros _]; intros items h r h' Hrun;
      apply Array_filter_allocates in Hrun as [-> [l ->]];
      [apply prefix_of_alloc | reflexivity].
  - intros [Ha Hb]. destruct (IHa Ha) as [Pa _], (IHb Hb) as [Pb Nb].
    split; [|intros Hnew];
      intros items h r h' (r1 & h1 & Hra & Hrb)%bind_Some.
    + etrans; [eapply Pa, Hra | eapply Pb, Hrb].
    + apply Pa, prefix_length in Hra. apply (Nb Hnew) in Hrb. lia.
  - intros [Ha Hb]. destruct (IHa Ha) as [Pa _], (IHb Hb) as [Pb _].
    assert (forall items h r h',
      (let* firstCriteriaItems := meet B call a items in
       let* otherCriteriaItems := meet B call b items in
       let* first := read firstCriteriaItems in
       let* other := read otherCriteriaItems in
       alloc (Set_from (first ++ other))) h = Some (r, h') ->
      h `prefix_of` h' /\ length h <= r) as Hor.
    { intros items h r h' (r1 & h1 & Hra & (r2 & h2 & Hrb &
        (l1 & h3 & [_ Hl1]%read_inv & (l2 & h4 & [_ Hl2]%read_inv &
         Halloc)%bind_Some)%bind_Some)%bind_Some)%bind_Some.
      simpl in Hl1, Hl2. subst h3 h4. injection Halloc as <- <-.
      apply Pa in Hra. apply Pb in Hrb.
      assert (h `prefix_of` h2) as Hh by (etrans; eassumption).
      split; [etrans; [exact Hh | apply prefix_of_alloc]
             | apply prefix_length, Hh]. }
    split; [|intros _]; intros items h r h' Hrun; apply Hor in Hrun; tauto.
  - intros Ha. destruct (IHa Ha) as [Pa _].
    assert (forall items h r h',
      (let* criteriaItems := meet B call a items in
       let* l := read items in
       let* found := read criteriaItems in
       alloc (List.filter (fun item => negb (includes found item)) l)) h
        = Some (r, h') ->
      h `prefix_of` h' /\ length h <= r) as Hnot.
    { intros items h r h' (r1 & h1 & Hra &
        (l1 & h3 & [_ Hl1]%read_inv & (l2 & h4 & [_ Hl2]%read_inv &
         Halloc)%bind_Some)%bind_Some)%bind_Some.
      simpl in Hl1, Hl2. subst h3 h4. injection Halloc as <- <-.
      apply Pa in Hra.
      split; [etrans; [exact Hra | apply prefix_of_alloc]
             | apply prefix_length, Hra]. }
    split; [|intros _]; intros items h r h' Hrun; apply Hnot in Hrun; tauto.
  - intros Hm. split; [exact Hm | intros Hnew; exact Hnew].
  - intros Hok. split; [|intros []].
    intros items h r h'. destruct (B !! this) as [b|] eqn:Hb; [|discriminate].
    pose proof (B_tidy this b Hok Hb) as [Hchain Horder].
    intros (r1 & h1 & Hred & Hsort)%bind_Some.
    destruct (orderBy b) as [o|] eqn:Ho.
    + destruct Horder as [[=]|(chain & c & Hcc & Hnew)].
      apply Array_sort_inv in Hsort as (l & _ & [= -> ->]).
      rewrite Hcc in Hred, Hchain. apply Forall_app in Hchain as [Hchain Hc].
      apply Forall_inv in Hc.
      rewrite reduce_app in Hred.
      apply bind_Some in Hred as (r0 & h0 & Hred0 & Hlast).
      simpl in Hlast. apply bind_Some in Hlast as (r2 & h2 & Hlast & [= <- <-]).
      apply reduce_only_allocates in Hred0; [|exact Hchain].
      pose proof (call_allocates c Hc _ _ _ _ Hlast) as Hh2.
      pose proof (call_new c Hc Hnew _ _ _ _ Hlast) as Hr2.
      apply prefix_of_sort_new; [etrans; eassumption|].
      apply prefix_length in Hred0. lia.
    + injection Hsort as <- <-.
      eapply reduce_only_allocates; eassumption.
Qed.
End frame.

Lemma chained_frame (ok : loc -> Prop) fuel B c :
  (forall this b, ok this -> B !! this = Some b -> tidy ok b) ->
  side_effect_free ok c ->
  only_allocates (chained fuel B c) /\
  (makes_new_array c -> returns_new_array (chained fuel B c)).
Proof.
  intros HB. revert c. induction fuel as [|n IH]; intros c Hc.
  - split; [|intros _]; intros items h r h'; discriminate.
  - apply (meet_frame ok B (chained n B) HB); [| |exact Hc].
    + intros c' Hc'. apply IH, Hc'.
    + intros c' Hc'. apply IH, Hc'.
Qed.

(** C9, as the code has it: [meetCriteria] modifies no array that was
    there before the call, the caller's input included, and only adds
    new ones, for [Criteria.create], for [And], [Or] and [Not] over
    side-effect-free criteria, and for the composite of a tidy builder:
    one whose chain is side-effect free and whose ordering directive,
    if set, sorts an array made by the last criteria of the chain. *)
Theorem meetCriteria_only_allocates (ok : loc -> Prop) fuel B c items h r h' :
  (forall this b, ok this -> B !! this = Some b -> tidy ok b) ->
  side_effect_free ok c ->
  meetCriteria fuel B c items h = Some (r, h') ->
  h `prefix_of` h' /\
  (forall r0 l0, h !! r0 = Some l0 -> h' !! r0 = Some l0) /\
  (makes_new_array c -> length h <= r).
Proof.
  intros HB Hc Hrun.
  destruct (chained_frame ok (S fuel) B c HB Hc) as [Hframe Hnew].
  pose proof (Hframe _ _ _ _ Hrun) as Hh. split; [exact Hh|split].
  - intros r0 l0 Hr0. eapply prefix_lookup_Some; eassumption.
  - intros Hmk. eapply Hnew; eassumption.
Qed.

(** ** A composite follows its builder *)

(** C1, as the code has it: the composite returned by [build()] refers
    to its builder and reads the chain and the ordering directive each
    time it is evaluated: after a later [addCriteria(c)] it folds the
    input through the old chain and then [c], after a later
    [setOrderBy(k, d)] it sorts by [k] in direction [d]; and every
    [build()] of the same builder returns an equal composite. *)
Theorem build_follows_builder fuel B this b c (k : K) d items h :
  B !! this = Some b ->
  meetCriteria (S fuel) (addCriteria this c B).2 (build this) items h =
    (let* result := reduce (meetCriteria fuel (addCriteria this c B).2)
                      (criteriaChain b ++ [c]) items in
     match orderBy b with
     | Some o => OrderBy_apply o result
     | None => ret result
     end) h /\
  meetCriteria (S fuel) (setOrderBy this k d B).2 (build this) items h =
    (let* result := reduce (meetCriteria fuel (setOrderBy this k d B).2)
                      (criteriaChain b) items in
     OrderBy_apply (new_OrderBy k (default asc d)) result) h /\
  build (addCriteria this c B).1 =@{Criteria T} build this /\
  build (setOrderBy this k d B).1 =@{Criteria T} build this.
Proof.
  intros Hb. split; [|split; [|split; reflexivity]].
  - unfold build. rewrite meetCriteria_Composite.
    rewrite (addCriteria_lookup _ _ _ _ Hb). reflexivity.
  - unfold build. rewrite meetCriteria_Composite.
    rewrite (setOrderBy_lookup _ _ _ _ _ Hb). reflexivity.
Qed.

End criterium_facts.

(** * Further properties *)

(** ** Criteria made of predicates *)

Section select_facts.
Context {T : Type} `{EqDecision T}.
Implicit Types (c : Criteria T) (l : list T).

Lemma in_order_plain c : in_order c -> plain c.
Proof.
  induction c as [p|a IHa b IHb|a IHa b IHb|a IHa|m|this]; simpl; tauto.
Qed.

Lemma select_elem c l x :
  plain c -> x ∈ select c l <-> x ∈ l /\ holds c x = true.
Proof.
  revert l. induction c as [p|a IHa b IHb|a IHa b IHb|a IHa|m|this];
    intros l; simpl; try tauto.
  - intros _. apply elem_of_List_filter.
  - intros [Ha Hb]. rewrite (IHb _ Hb), (IHa _ Ha), andb_true_iff. tauto.
  - intros [Ha Hb].
    rewrite Set_from_first_occurrences, elem_of_first_occurrences,
      elem_of_app, (IHa _ Ha), (IHb _ Hb), orb_true_iff.
    tauto.
  - intros Ha.
    rewrite elem_of_List_filter, negb_true_iff, includes_false, (IHa _ Ha).
    destruct (holds a x); simpl; intuition congruence.
Qed.

Lemma select_in_order c l :
  in_order c -> select c l = List.filter (holds c) l.
Proof.
  revert l. induction c as [p|a IHa b IHb|a IHa b IHb|a IHa|m|this];
    intros l; simpl; try tauto.
  - intros [Ha Hb]. rewrite (IHa _ Ha), (IHb _ Hb). apply filter_filter.
  - intros Ha. apply filter_ext_elem. intros y Hy. f_equal.
    apply eq_true_iff_eq. rewrite includes_true, (select_elem _ _ _ Ha).
    tauto.
Qed.

Lemma select_Set_NoDup (a b : Criteria T) l :
  NoDup (select (OrCriteria a b) l).
Proof.
  simpl. rewrite Set_from_first_occurrences. apply first_occurrences_NoDup.
Qed.

End select_facts.

Section plain_facts.
Context {T K V : Type} `{EqDecision T}.
Context (get : T -> K -> V) (ltb : V -> V -> bool).
Implicit Types (h : heap T) (B : builders T K) (c : Criteria T) (l : list T).

Local Abbreviation meetCriteria := (meetCriteria get ltb).
Local Abbreviation meet := (meet get ltb).
Local Abbreviation output := (output get ltb).

(** A plain criteria needs no fuel and no builder: it returns a new
    array, the last one of the store it leaves. *)
Lemma plain_run B (call : Criteria T -> loc -> M T loc) c items h l :
  plain c -> h !! items = Some l ->
  exists h', meet B call c items h = Some (length h', h' ++ [select c l]) /\
             h `prefix_of` h'.
Proof.
  revert items h l.
  induction c as [p|a IHa b IHb|a IHa b IHb|a IHa|m|this];
    intros items h l; simpl; try tauto.
  - intros _ Hl. exists h. split; [|reflexivity].
    unfold Array_filter. rewrite (bind_run _ _ _ _ _ (read_Some _ _ _ Hl)).
    reflexivity.
  - intros [Ha Hb] Hl.
    destruct (IHa items h l Ha Hl) as (h1 & Hra & Hh1).
    destruct (IHb (length h1) (h1 ++ [select a l]) (select a l) Hb
                (alloc_lookup_new _ _)) as (h2 & Hrb & Hh2).
    exists h2. split.
    + rewrite (bind_run _ _ _ _ _ Hra). exact Hrb.
    + etrans; [exact Hh1|]. etrans; [apply prefix_of_alloc | exact Hh2].
  - intros [Ha Hb] Hl.
    destruct (IHa items h l Ha Hl) as (h1 & Hra & Hh1).
    assert ((h1 ++ [select a l]) !! items = Some l) as Hl1.
    { eapply prefix_lookup_Some; [exact Hl|].
      etrans; [exact Hh1 | apply prefix_of_alloc]. }
    destruct (IHb items (h1 ++ [select a l]) l Hb Hl1) as (h2 & Hrb & Hh2).
    exists (h2 ++ [select b l]). split.
    + rewrite (bind_run _ _ _ _ _ Hra), (bind_run _ _ _ _ _ Hrb).
      assert ((h2 ++ [select b l]) !! length h1 = Some (select a l)) as Hfirst.
      { eapply prefix_lookup_Some; [apply alloc_lookup_new|].
        etrans; [exact Hh2 | apply prefix_of_alloc]. }
      rewrite (bind_run _ _ _ _ _ (read_Some _ _ _ Hfirst)).
      rewrite (bind_run _ _ _ _ _ (read_Some _ _ _ (alloc_lookup_new _ _))).
      reflexivity.
    + etrans; [exact Hh1|]. etrans; [apply prefix_of_alloc|].
      etrans; [exact Hh2 | apply prefix_of_alloc].
  - intros Ha Hl.
    destruct (IHa items h l Ha Hl) as (h1 & Hra & Hh1).
    assert ((h1 ++ [select a l]) !! items = Some l) as Hl1.
    { eapply prefix_lookup_Some; [exact Hl|].
      etrans; [exact Hh1 | apply prefix_of_alloc]. }
    exists (h1 ++ [select a l]). split.
    + rewrite (bind_run _ _ _ _ _ Hra).
      rewrite (bind_run _ _ _ _ _ (read_Some _ _ _ Hl1)).
      rewrite (bind_run _ _ _ _ _ (read_Some _ _ _ (alloc_lookup_new _ _))).
      reflexivity.
    + etrans; [exact Hh1 | apply prefix_of_alloc].
Qed.

(** On a reference that is not in the store a plain criteria fails. *)
Lemma plain_fail B (call : Criteria T -> loc -> M T loc) c items h :
  plain c -> h !! items = None -> meet B call c items h = None.
Proof.
  revert items h.
  induction c as [p|a IHa b IHb|a IHa b IHb|a IHa|m|this];
    intros items h; simpl; try tauto.
  - intros _ Hl. unfold Array_filter, bind, read. rewrite Hl. reflexivity.
  - intros [Ha _] Hl. unfold bind. rewrite (IHa _ _ Ha Hl). reflexivity.
  - intros [Ha _] Hl. unfold bind. rewrite (IHa _ _ Ha Hl). reflexivity.
  - intros Ha Hl. unfold bind. rewrite (IHa _ _ Ha Hl). reflexivity.
Qed.

Lemma plain_output fuel B c items h :
  plain c -> output fuel B c items h = select c <$> h !! items.
Proof.
  intros Hc. unfold output, meetCriteria.
  destruct (h !! items) as [l|] eqn:Hl.
  - destruct (plain_run B (chained get ltb fuel B) c items h l Hc Hl)
      as (h' & -> & _).
    simpl. apply alloc_lookup_new.
  - rewrite (plain_fail _ _ _ _ _ Hc Hl). reflexivity.
Qed.

(** X1: a criteria built from [Criteria.create], [And], [Or] and [Not]
    alone always returns, whatever the fuel and the builders: it hands
    back an array that was not in the store, leaves every array of the
    store as it was, and the array it returns holds exactly the items of
    the input that satisfy the boolean combination of the predicates. *)
Theorem plain_meetCriteria_total fuel B c items h l :
  plain c ->
  h !! items = Some l ->
  exists r h' lo,
    meetCriteria fuel B c items h = Some (r, h') /\
    h `prefix_of` h' /\
    length h <= r /\
    h' !! r = Some lo /\
    (forall x, x ∈ lo <-> x ∈ l /\ holds c x = true).
Proof.
  intros Hc Hl.
  destruct (plain_run B (chained get ltb fuel B) c items h l Hc Hl)
    as (h' & Hrun & Hh').
  exists (length h'), (h' ++ [select c l]), (select c l).
  split; [exact Hrun|]. split; [|split; [|split]].
  - etrans; [exact Hh' | apply prefix_of_alloc].
  - apply prefix_length, Hh'.
  - apply alloc_lookup_new.
  - intros x. apply select_elem, Hc.
Qed.

Lemma in_order_output fuel B c items h :
  in_order c -> output fuel B c items h = List.filter (holds c) <$> h !! items.
Proof.
  intros Hc. rewrite (plain_output _ _ _ _ _ (in_order_plain _ Hc)).
  destruct (h !! items) as [l|]; [|reflexivity].
  simpl. rewrite (select_in_order _ _ Hc). reflexivity.
Qed.

(** X2: a combination of [And] and [Not] over criteria made by
    [Criteria.create] (an [Or] only below a [Not]) gives the same output
    as the single criteria [Criteria.create] makes of the combined
    predicate: the matching items in the order of the input. *)
Theorem in_order_meetCriteria_filter fuel B c items h :
  in_order c ->
  output fuel B c items h = output fuel B (create (holds c)) items h /\
  output fuel B c items h = List.filter (holds c) <$> h !! items.
Proof.
  intros Hc. rewrite (in_order_output _ _ c _ _ Hc). split; [|reflexivity].
  symmetry. apply (in_order_output _ _ (create (holds c))). exact I.
Qed.

(** X3: over such criteria [And] commutes and is idempotent:
    [And(a,b)] and [And(b,a)] return the same items in the same order,
    and [And(a,a)] returns what [a] returns. *)
Theorem AndCriteria_commutes_idempotent fuel B a b items h :
  in_order a -> in_order b ->
  output fuel B (AndCriteria a b) items h =
    output fuel B (AndCriteria b a) items h /\
  output fuel B (AndCriteria a a) items h = output fuel B a items h.
Proof.
  intros Ha Hb.
  rewrite (in_order_output _ _ (AndCriteria a b)) by (simpl; tauto).
  rewrite (in_order_output _ _ (AndCriteria b a)) by (simpl; tauto).
  rewrite (in_order_output _ _ (AndCriteria a a)) by (simpl; tauto).
  rewrite (in_order_output _ _ a) by exact Ha.
  destruct (h !! items) as [l|]; [|split; reflexivity]. simpl.
  split; apply (f_equal Some), List.filter_ext; intros x.
  - apply andb_comm.
  - apply andb_diag.
Qed.

(** X4: [Not] undoes [Not], and [Not(Or(a,b))] is [And(Not(a),Not(b))]:
    in both cases the two criteria return the same items in the same
    order.  [And(c, Not(c))] returns the empty array. *)
Theorem NotCriteria_laws fuel B a b c items h :
  plain a -> plain b -> in_order c ->
  output fuel B (NotCriteria (NotCriteria c)) items h =
    output fuel B c items h /\
  output fuel B (NotCriteria (OrCriteria a b)) items h =
    output fuel B (AndCriteria (NotCriteria a) (NotCriteria b)) items h /\
  output fuel B (AndCriteria c (NotCriteria c)) items h =
    (fun _ => []) <$> h !! items.
Proof.
  intros Ha Hb Hc. pose proof (in_order_plain _ Hc) as Hpc.
  rewrite (in_order_output _ _ (NotCriteria (NotCriteria c))) by exact Hpc.
  rewrite (in_order_output _ _ c) by exact Hc.
  rewrite (in_order_output _ _ (NotCriteria (OrCriteria a b)))
    by (simpl; tauto).
  rewrite (in_order_output _ _ (AndCriteria (NotCriteria a) (NotCriteria b)))
    by (simpl; tauto).
  rewrite (in_order_output _ _ (AndCriteria c (NotCriteria c)))
    by (simpl; tauto).
  destruct (h !! items) as [l|]; [|auto]. simpl.
  split; [|split]; apply (f_equal Some).
  - apply List.filter_ext. intros x. apply negb_involutive.
  - apply List.filter_ext. intros x. apply negb_orb.
  - induction l as [|x l IH]; [reflexivity|]. simpl.
    rewrite andb_negb_r. exact IH.
Qed.

(** X5: [Or] commutes up to the order of the result: over criteria
    made of predicates, [Or(a,b)] and [Or(b,a)] return the same items,
    each once, in possibly different orders. *)
Theorem OrCriteria_commutes_up_to_order fuel B a b items h l :
  plain a -> plain b ->
  h !! items = Some l ->
  exists l1 l2,
    output fuel B (OrCriteria a b) items h = Some l1 /\
    output fuel B (OrCriteria b a) items h = Some l2 /\
    NoDup l1 /\ NoDup l2 /\ l1 ≡ₚ l2.
Proof.
  intros Ha Hb Hl.
  exists (select (OrCriteria a b) l), (select (OrCriteria b a) l).
  rewrite !plain_output, Hl by (simpl; tauto).
  split; [reflexivity|]. split; [reflexivity|].
  pose proof (select_Set_NoDup a b l) as H1.
  pose proof (select_Set_NoDup b a l) as H2.
  split; [exact H1|]. split; [exact H2|].
  apply NoDup_Permutation; [exact H1 | exact H2|].
  intros x. rewrite !select_elem by (simpl; tauto). simpl.
  rewrite !orb_true_iff. tauto.
Qed.

End plain_facts.

(** ** No item is invented, no item is lost *)

Section elements.
Context {T K V : Type} `{EqDecision T}.
Context (get : T -> K -> V) (ltb : V -> V -> bool).
Implicit Types (h : heap T) (B : builders T K) (c : Criteria T) (l : list T).

Local Abbreviation meetCriteria := (meetCriteria get ltb).
Local Abbreviation chained := (chained get ltb).
Local Abbreviation meet := (meet get ltb).

Lemma reorders_only_refl h : reorders_only h h.
Proof. intros r l Hl. eauto. Qed.

Lemma reorders_only_trans h1 h2 h3 :
  reorders_only h1 h2 -> reorders_only h2 h3 -> reorders_only h1 h3.
Proof.
  intros H12 H23 r l Hl.
  destruct (H12 r l Hl) as (l2 & Hl2 & Hp2).
  destruct (H23 r l2 Hl2) as (l3 & Hl3 & Hp3).
  exists l3. split; [exact Hl3 | etrans; eassumption].
Qed.

Lemma reorders_only_alloc h l : reorders_only h (h ++ [l]).
Proof. intros r l0 Hl0. exists l0. split; [|reflexivity]. apply lookup_app_l_Some, Hl0. Qed.

Lemma reorders_only_sort h r l l' :
  h !! r = Some l -> l' ≡ₚ l -> reorders_only h (<[r := l']> h).
Proof.
  intros Hl Hp r0 l0 Hl0. destruct (decide (r0 = r)) as [->|Hne].
  - exists l'. rewrite list_lookup_insert_eq by (eapply lookup_lt_Some, Hl).
    split; [reflexivity | congruence].
  - exists l0. rewrite list_lookup_insert_ne by congruence.
    split; [exact Hl0 | reflexivity].
Qed.

Section level.
Context (B : builders T K) (call : Criteria T -> loc -> M T loc).
Hypothesis B_host_free :
  forall this b, B !! this = Some b -> Forall host_free (criteriaChain b).
Hypothesis call_selects : forall c, host_free c -> selects (call c).

Lemma reduce_selects chain : Forall host_free chain -> selects (reduce call chain).
Proof using call_selects.
  induction 1 as [|c chain Hc _ IH]; intros items h r h' l; simpl.
  - intros [= <- <-] Hl. split; [apply reorders_only_refl|]. eauto.
  - intros (r1 & h1 & Hcall & Hrest)%bind_Some Hl.
    destruct (call_selects c Hc _ _ _ _ _ Hcall Hl) as (H01 & l1 & Hl1 & Hsub1).
    destruct (IH _ _ _ _ _ Hrest Hl1) as (H12 & lo & Hlo & Hsub).
    split; [eapply reorders_only_trans; eassumption|].
    exists lo. split; [exact Hlo | etrans; eassumption].
Qed.

Lemma meet_selects c : host_free c -> selects (meet B call c).
Proof using B_host_free call_selects.
  induction c as [p|a IHa b IHb|a IHa b IHb|a IHa|m|this]; simpl;
    intros Hc items h r h' l.
  - intros Hrun Hl. unfold Array_filter in Hrun.
    rewrite (bind_run _ _ _ _ _ (read_Some _ _ _ Hl)) in Hrun.
    injection Hrun as <- <-. split; [apply reorders_only_alloc|].
    exists (List.filter p l). split; [apply alloc_lookup_new|].
    intros x [Hx _]%elem_of_List_filter. exact Hx.
  - destruct Hc as [Ha Hb].
    intros (r1 & h1 & Hra & Hrb)%bind_Some Hl.
    destruct (IHa Ha _ _ _ _ _ Hra Hl) as (H01 & l1 & Hl1 & Hsub1).
    destruct (IHb Hb _ _ _ _ _ Hrb Hl1) as (H12 & lo & Hlo & Hsub).
    split; [eapply reorders_only_trans; eassumption|].
    exists lo. split; [exact Hlo | etrans; eassumption].
  - destruct Hc as [Ha Hb].
    intros (r1 & h1 & Hra & (r2 & h2 & Hrb &
      (first & h3 & [Hfirst Hh3]%read_inv &
       (other & h4 & [Hother Hh4]%read_inv & Halloc)%bind_Some)%bind_Some)
        %bind_Some)%bind_Some Hl.
    simpl in *. subst h3 h4. injection Halloc as <- <-.
    destruct (IHa Ha _ _ _ _ _ Hra Hl) as (H01 & l1 & Hl1 & Hsub1).
    destruct (H01 _ _ Hl) as (l' & Hl' & Hperm').
    destruct (IHb Hb _ _ _ _ _ Hrb Hl') as (H12 & l2 & Hl2 & Hsub2).
    destruct (H12 _ _ Hl1) as (l1' & Hl1' & Hperm1).
    assert (first = l1') as -> by congruence.
    assert (other = l2) as -> by congruence.
    split.
    + eapply reorders_only_trans; [exact H01|].
      eapply reorders_only_trans; [exact H12 | apply reorders_only_alloc].
    + eexists. split; [apply alloc_lookup_new|].
      intros x. rewrite Set_from_first_occurrences, elem_of_first_occurrences,
        elem_of_app.
      intros [Hx|Hx].
      * apply Hsub1. rewrite <- Hperm1. exact Hx.
      * rewrite <- Hperm'. apply Hsub2, Hx.
  - intros (r1 & h1 & Hra &
      (l1 & h3 & [Hl1 Hh3]%read_inv &
       (found & h4 & [_ Hh4]%read_inv & Halloc)%bind_Some)%bind_Some)
        %bind_Some Hl.
    simpl in *. subst h3 h4. injection Halloc as <- <-.
    destruct (IHa Hc _ _ _ _ _ Hra Hl) as (H01 & _).
    destruct (H01 _ _ Hl) as (l' & Hl' & Hperm').
    assert (l1 = l') as -> by congruence.
    split; [eapply reorders_only_trans;
              [exact H01 | apply reorders_only_alloc]|].
    eexists. split; [apply alloc_lookup_new|].
    intros x [Hx _]%elem_of_List_filter. rewrite <- Hperm'. exact Hx.
  - destruct Hc.
  - destruct (B !! this) as [b|] eqn:Hb; [|discriminate].
    intros (r1 & h1 & Hred & Hsort)%bind_Some Hl.
    destruct (reduce_selects _ (B_host_free _ _ Hb) _ _ _ _ _ Hred Hl)
      as (H01 & l1 & Hl1 & Hsub1).
    destruct (orderBy b) as [o|].
    + apply Array_sort_inv in Hsort as (l1' & Hl1' & [= -> ->]).
      assert (l1' = l1) as -> by congruence.
      pose proof (sorted_by_perm (comparator get ltb o) l1) as Hperm.
      split.
      * eapply reorders_only_trans; [exact H01|].
        eapply reorders_only_sort; eassumption.
      * eexists. split.
        -- apply list_lookup_insert_eq. eapply lookup_lt_Some, Hl1.
        -- intros x Hx. apply Hsub1. rewrite <- Hperm. exact Hx.
    + injection Hsort as <- <-. split; [exact H01|]. eauto.
Qed.
End level.

Lemma chained_selects fuel B c :
  (forall this b, B !! this = Some b -> Forall host_free (criteriaChain b)) ->
  host_free c -> selects (chained fuel B c).
Proof.
  intros HB. revert c. induction fuel as [|n IH]; intros c Hc.
  - intros items h r h' l. discriminate.
  - apply (meet_selects B (chained n B) HB IH), Hc.
Qed.

(** X6: whatever the library's own criteria do, composites and their
    in-place sorts included, they invent no item and lose none: the
    array that [meetCriteria] returns holds only items of the input,
    and every array that was in the store is still there with the same
    elements, at most in another order. *)
Theorem meetCriteria_keeps_elements fuel B c items h r h' l :
  (forall this b, B !! this = Some b -> Forall host_free (criteriaChain b)) ->
  host_free c ->
  meetCriteria fuel B c items h = Some (r, h') ->
  h !! items = Some l ->
  (forall r0 l0, h !! r0 = Some l0 ->
     exists l0', h' !! r0 = Some l0' /\ l0' ≡ₚ l0) /\
  exists lo, h' !! r = Some lo /\ (forall x, x ∈ lo -> x ∈ l).
Proof.
  intros HB Hc Hrun Hl.
  exact (chained_selects (S fuel) B c HB Hc items h r h' l Hrun Hl).
Qed.

End elements.

(** ** Configuring a builder *)

Section builder_facts.
Context {T K V : Type} `{EqDecision T}.
Context (get : T -> K -> V) (ltb : V -> V -> bool).
Implicit Types (h : heap T) (B : builders T K) (c : Criteria T) (l : list T).

Local Abbreviation meetCriteria := (meetCriteria get ltb).
Local Abbreviation chained := (chained get ltb).
Local Abbreviation meet := (meet get ltb).
Local Abbreviation OrderBy_apply := (OrderBy_apply get ltb).
Local Abbreviation comparator := (comparator get ltb).

(** X7: [setOrderBy] replaces the ordering directive: of several calls
    on a builder only the last one counts, the chain is not touched,
    and the other builders are as they were. *)
Theorem setOrderBy_last_wins B this (k1 k2 : K) d1 d2 :
  (setOrderBy this k2 d2 (setOrderBy this k1 d1 B).2).2 =
    (setOrderBy this k2 d2 B).2 /\
  (forall b, B !! this = Some b ->
     (setOrderBy this k2 d2 B).2 !! this =
     Some (mkBuilder (criteriaChain b)
             (Some (new_OrderBy k2 (default asc d2))))) /\
  (forall other, other <> this ->
     (setOrderBy this k2 d2 B).2 !! other = B !! other).
Proof.
  split; [|split].
  - simpl. rewrite list_alter_alter_eq. apply list_alter_ext; [|reflexivity].
    intros b _. reflexivity.
  - intros b Hb. simpl. rewrite list_lookup_alter_eq, Hb. reflexivity.
  - intros other Hne. simpl. apply list_lookup_alter_ne. congruence.
Qed.

(** X8: [addCriteria] and [setOrderBy] can be called in any order: the
    chain grows in the order of the [addCriteria] calls and keeps the
    ordering directive, and a [setOrderBy] before, between or after them
    leaves the same builder. *)
Theorem addCriteria_setOrderBy_commute B this c1 c2 (k : K) d :
  (addCriteria this c1 (setOrderBy this k d B).2).2 =
    (setOrderBy this k d (addCriteria this c1 B).2).2 /\
  (forall b, B !! this = Some b ->
     (addCriteria this c2 (addCriteria this c1 B).2).2 !! this =
     Some (mkBuilder (criteriaChain b ++ [c1; c2]) (orderBy b))) /\
  (forall other, other <> this ->
     (addCriteria this c1 B).2 !! other = B !! other).
Proof.
  split; [|split].
  - simpl. rewrite !list_alter_alter_eq. apply list_alter_ext; [|reflexivity].
    intros b _. reflexivity.
  - intros b Hb. simpl. rewrite !list_lookup_alter_eq, Hb. simpl.
    rewrite <- app_assoc. reflexivity.
  - intros other Hne. simpl. apply list_lookup_alter_ne. congruence.
Qed.

(** ** A builder that holds its own composite *)

Lemma reduce_None (call : Criteria T -> loc -> M T loc) chain c items h :
  c ∈ chain -> (forall r h0, call c r h0 = None) ->
  reduce call chain items h = None.
Proof.
  intros Hin Hc. revert items h.
  induction chain as [|c0 chain IH]; intros items h.
  - apply elem_of_nil in Hin as [].
  - simpl. unfold bind. apply elem_of_cons in Hin as [<-|Hin].
    + rewrite Hc. reflexivity.
    + destruct (call c0 items h) as [[r1 h1]|]; [|reflexivity].
      apply IH, Hin.
Qed.

Lemma self_composite_None fuel B this b items h :
  B !! this = Some b -> Composite this ∈ criteriaChain b ->
  meetCriteria fuel B (Composite this) items h = None.
Proof.
  intros Hb Hin. revert items h. induction fuel as [|n IH]; intros items h.
  - unfold meetCriteria. simpl. rewrite Hb. unfold bind.
    rewrite (reduce_None _ _ _ _ _ Hin); [reflexivity|]. reflexivity.
  - rewrite meetCriteria_Composite, Hb. unfold bind.
    rewrite (reduce_None _ _ _ _ _ Hin); [reflexivity|]. exact IH.
Qed.

(** X9: a builder must not be given its own composite: after
    [b.addCriteria(b.build())] the composites of [b] call themselves
    without end and never return, however deep the stack. *)
Theorem self_composite_never_returns fuel B this b items h :
  B !! this = Some b ->
  meetCriteria fuel (addCriteria this (build this) B).2 (build this) items h
    = None.
Proof.
  intros Hb.
  apply (self_composite_None fuel _ this
           (mkBuilder (criteriaChain b ++ [build this]) (orderBy b))).
  - apply addCriteria_lookup, Hb.
  - simpl. apply elem_of_app. right. apply list_elem_of_singleton. reflexivity.
Qed.

End builder_facts.

(** ** Sorting again, and the builder over predicates *)

Section sorting_facts.
Context {T K V : Type} `{EqDecision T}.
Context (get : T -> K -> V) (ltb : V -> V -> bool).
Implicit Types (h : heap T) (B : builders T K) (c : Criteria T) (l : list T).

Local Abbreviation meetCriteria := (meetCriteria get ltb).
Local Abbreviation chained := (chained get ltb).
Local Abbreviation meet := (meet get ltb).
Local Abbreviation OrderBy_apply := (OrderBy_apply get ltb).
Local Abbreviation comparator := (comparator get ltb).

Section resort.
Hypothesis ltb_asym : forall x y, ltb x y = true -> ltb y x = false.
Hypothesis ltb_negtrans :
  forall x y z, ltb x y = false -> ltb y z = false -> ltb x z = false.

Lemma sorted_by_again (k : K) d1 d2 l :
  sorted_by (comparator (new_OrderBy k d2))
    (sorted_by (comparator (new_OrderBy k d1)) l) =
  sorted_by (comparator (new_OrderBy k d2)) l.
Proof using ltb_asym ltb_negtrans.
  apply (sorted_by_comparator_unique get ltb ltb_asym ltb_negtrans).
  - rewrite !sorted_by_perm. reflexivity.
  - apply sorted_by_sorted.
    + apply (comparator_anti get ltb ltb_asym).
    + apply (comparator_trans get ltb ltb_asym ltb_negtrans).
  - intros x.
    rewrite (sorted_by_stable _ (ties get ltb (new_OrderBy k d2)))
      by apply (ties_keeps get ltb ltb_asym ltb_negtrans).
    change (ties get ltb (new_OrderBy k d2) x)
      with (ties get ltb (new_OrderBy k d1) x).
    apply sorted_by_stable, (ties_keeps get ltb ltb_asym ltb_negtrans).
Qed.

(** X10: sorting an array that [apply] has already sorted by the same
    attribute gives what sorting the original array gives: applying the
    same ordering twice changes nothing more, and applying the
    descending ordering after the ascending one (or the reverse) leaves
    the array exactly as the second ordering alone would, ties in their
    original input order. *)
Theorem OrderBy_apply_again (k : K) d1 d2 items h l :
  h !! items = Some l ->
  (let* r := OrderBy_apply (new_OrderBy k d1) items in
   OrderBy_apply (new_OrderBy k d2) r) h =
  OrderBy_apply (new_OrderBy k d2) items h /\
  (let* r := OrderBy_apply (new_OrderBy k d2) items in
   OrderBy_apply (new_OrderBy k d2) r) h =
  OrderBy_apply (new_OrderBy k d2) items h.
Proof using ltb_asym ltb_negtrans.
  intros Hl.
  assert (forall d,
    (let* r := OrderBy_apply (new_OrderBy k d) items in
     OrderBy_apply (new_OrderBy k d2) r) h =
    OrderBy_apply (new_OrderBy k d2) items h) as Hagain.
  { intros d. unfold OrderBy_apply.
    rewrite (bind_run _ _ _ _ _ (Array_sort_Some _ _ _ _ Hl)).
    rewrite (Array_sort_Some _ _ _ _ Hl).
    erewrite Array_sort_Some;
      [|apply list_lookup_insert_eq; eapply lookup_lt_Some, Hl].
    rewrite list_insert_insert_eq, sorted_by_again. reflexivity. }
  split; apply Hagain.
Qed.
End resort.

(** The fold of a chain of criteria made of predicates. *)
Lemma reduce_in_order B (call : Criteria T -> loc -> M T loc) chain items h l :
  Forall in_order chain ->
  h !! items = Some l ->
  exists r h',
    reduce (meet B call) chain items h = Some (r, h') /\
    h' !! r =
      Some (List.filter (fun x => forallb (fun c => holds c x) chain) l) /\
    h `prefix_of` h' /\
    (chain <> [] -> length h <= r) /\
    (chain = [] -> r = items).
Proof.
  intros Hchain. revert items h l.
  induction Hchain as [|c chain Hc _ IH]; intros items h l Hl.
  - exists items, h. simpl. rewrite List.filter_true.
    split; [reflexivity|]. split; [exact Hl|]. split; [reflexivity|].
    split; [intros []|]; reflexivity.
  - destruct (plain_run get ltb B call c items h l (in_order_plain _ Hc) Hl)
      as (h1 & Hrun & Hh1).
    rewrite (select_in_order _ _ Hc) in Hrun.
    destruct (IH (length h1) (h1 ++ [List.filter (holds c) l]) _
                (alloc_lookup_new _ _)) as (r & h' & Hred & Hr & Hh' & _).
    exists r, h'. split; [|split; [|split; [|split; [|discriminate]]]].
    + simpl. rewrite (bind_run _ _ _ _ _ Hrun). exact Hred.
    + rewrite Hr, filter_filter. reflexivity.
    + etrans; [exact Hh1|]. etrans; [apply prefix_of_alloc | exact Hh'].
    + intros _. apply lookup_lt_Some in Hr. apply prefix_length in Hh1.
      destruct (decide (chain = [])) as [->|Hne].
      * simpl in Hred. injection Hred as <- <-. lia.
      * destruct (IH (length h1) (h1 ++ [List.filter (holds c) l]) _
                    (alloc_lookup_new _ _))
          as (r' & h'' & Hred' & _ & _ & Hle & _).
        rewrite Hred in Hred'. injection Hred' as <- <-.
        specialize (Hle Hne). rewrite length_app in Hle. lia.
Qed.

Lemma build_predicates_run fuel B this b items h l :
  B !! this = Some b ->
  Forall in_order (criteriaChain b) ->
  h !! items = Some l ->
  exists r h',
    meetCriteria (S fuel) B (build this) items h = Some (r, h') /\
    h' !! r =
      Some (let kept :=
              List.filter
                (fun x => forallb (fun c => holds c x) (criteriaChain b)) l in
            match orderBy b with
            | Some o => sorted_by (comparator o) kept
            | None => kept
            end) /\
    (criteriaChain b <> [] \/ orderBy b = None -> h `prefix_of` h') /\
    (criteriaChain b = [] -> r = items).
Proof.
  intros Hb Hchain Hl. unfold build. 
  destruct (reduce_in_order B (chained fuel B) _ items h l Hchain Hl)
    as (r & h1 & Hred & Hr & Hh1 & Hnew & Hsame).
  destruct (orderBy b) as [o|] eqn:Ho.
  - eexists r, _. split; [|split; [|split; [|exact Hsame]]].
    + rewrite meetCriteria_Composite, Hb, Ho.
      unfold meetCriteria. rewrite (bind_run _ _ _ _ _ Hred).
      apply Array_sort_Some, Hr.
    + apply list_lookup_insert_eq. eapply lookup_lt_Some, Hr.
    + intros [Hne|[=]]. apply prefix_of_sort_new; [exact Hh1 | exact (Hnew Hne)].
  - exists r, h1. split; [|split; [|split; [|exact Hsame]]].
    + rewrite meetCriteria_Composite, Hb, Ho.
      unfold meetCriteria. rewrite (bind_run _ _ _ _ _ Hred). reflexivity.
    + exact Hr.
    + intros _. exact Hh1.
Qed.


Section repeat.
Hypothesis ltb_asym : forall x y, ltb x y = true -> ltb y x = false.
Hypothesis ltb_negtrans :
  forall x y z, ltb x y = false -> ltb y z = false -> ltb x z = false.

(** X12: such a composite can be evaluated again on the same input
    array: the second call returns an array with the same elements in
    the same order as the first, even when the first call has sorted
    the input in place. *)
Theorem build_predicates_repeatable fuel B this b items h l r h' :
  B !! this = Some b ->
  Forall in_order (criteriaChain b) ->
  h !! items = Some l ->
  meetCriteria (S fuel) B (build this) items h = Some (r, h') ->
  output get ltb (S fuel) B (build this) items h' = h' !! r.
Proof using ltb_asym ltb_negtrans.
  intros Hb Hchain Hl Hrun.
  destruct (build_predicates_run fuel B this b items h l Hb Hchain Hl)
    as (r0 & h0 & Hrun0 & Hr & Hpre & Hsame).
  rewrite Hrun in Hrun0. injection Hrun0 as <- <-.
  assert (forall l', h' !! items = Some l' ->
    output get ltb (S fuel) B (build this) items h' =
    Some (let kept :=
            List.filter
              (fun x => forallb (fun c => holds c x) (criteriaChain b)) l' in
          match orderBy b with
          | Some o => sorted_by (comparator o) kept
          | None => kept
          end)) as Hagain.
  { intros l' Hl'.
    destruct (build_predicates_run fuel B this b items h' l' Hb Hchain Hl')
      as (r2 & h2 & Hrun2 & Hr2 & _).
    unfold output. fold (meetCriteria (S fuel) B (build this) items h').
    rewrite Hrun2. exact Hr2. }
  destruct (criteriaChain b) as [|c chain] eqn:Hcc.
  - destruct (orderBy b) as [[k d]|] eqn:Ho.
    + rewrite (Hsame eq_refl) in Hr |- *.
      rewrite (Hagain _ Hr), Hr. simpl. rewrite !List.filter_true.
      rewrite sorted_by_again by assumption. reflexivity.
    + rewrite (Hagain l), Hr; [reflexivity|].
      eapply prefix_lookup_Some; [exact Hl | apply Hpre; right; reflexivity].
  - rewrite (Hagain l), Hr; [reflexivity|].
    eapply prefix_lookup_Some; [exact Hl | apply Hpre; left; discriminate].
Qed.
End repeat.

End sorting_facts.

(** ** Chains and nested conjunctions *)

Section chain_facts.
Context {T K V : Type} `{EqDecision T}.
Context (get : T -> K -> V) (ltb : V -> V -> bool).
Implicit Types (h : heap T) (B : builders T K) (c : Criteria T) (l : list T).

Local Abbreviation meetCriteria := (meetCriteria get ltb).
Local Abbreviation chained := (chained get ltb).
Local Abbreviation meet := (meet get ltb).

Lemma bind_assoc {A1 A2 A3} (m : M T A1) (f : A1 -> M T A2) (g : A2 -> M T A3) h :
  bind (bind m f) g h = bind m (fun a => bind (f a) g) h.
Proof. unfold bind. destruct (m h) as [[a h1]|]; reflexivity. Qed.

Lemma bind_ret {A} (m : M T A) h : bind m ret h = m h.
Proof. unfold bind, ret. destruct (m h) as [[a h1]|]; reflexivity. Qed.

(** X13: [And] is associative for all criteria, custom ones and
    composites included: [And(And(a,b),c)] and [And(a,And(b,c))] run
    the same calls in the same order and leave the same store. *)
Theorem AndCriteria_associative fuel B a b c items h :
  meetCriteria fuel B (AndCriteria (AndCriteria a b) c) items h =
  meetCriteria fuel B (AndCriteria a (AndCriteria b c)) items h.
Proof. unfold meetCriteria. simpl. apply bind_assoc. Qed.

Lemma reduce_nested_And B (call : Criteria T -> loc -> M T loc) chain c items h :
  reduce (meet B call) (c :: chain) items h =
  meet B call (fold_left AndCriteria chain c) items h.
Proof.
  revert c items h. induction chain as [|d chain IH]; intros c items h.
  - simpl. apply bind_ret.
  - cbn [fold_left]. rewrite <- IH. simpl. symmetry. apply bind_assoc.
Qed.

(** X14: a builder chain is a nested [And]: with no ordering directive,
    the composite of the chain [c1, ..., cn] evaluates exactly as
    [And(...And(c1, c2)..., cn)], one call deeper, for all criteria. *)
Theorem build_chain_nested_And fuel B this b c chain items h :
  B !! this = Some b ->
  criteriaChain b = c :: chain ->
  orderBy b = None ->
  meetCriteria (S fuel) B (build this) items h =
  meetCriteria fuel B (fold_left AndCriteria chain c) items h.
Proof.
  intros Hb Hchain Ho. unfold build.
  rewrite meetCriteria_Composite, Hb, Ho, Hchain, bind_ret.
  apply reduce_nested_And.
Qed.

End chain_facts.

(** * The README's users: instances and counterexamples

    The instances reproduce the outputs that the README prints for its
    seven users. *)

Module UsersFacts.
Import Users.

Lemma Z_ltb_asym (x y : Z) : (x <? y)%Z = true -> (y <? x)%Z = false.
Proof. rewrite Z.ltb_lt, Z.ltb_ge. lia. Qed.

Lemma Z_ltb_negtrans (x y z : Z) :
  (x <? y)%Z = false -> (y <? z)%Z = false -> (x <? z)%Z = false.
Proof. rewrite !Z.ltb_ge. lia. Qed.

(** *** Instances *)

Lemma create_meetCriteria_filter_witness :
  [data] !! 0 = Some data /\
  exists h',
    run 0 [] (create adult) 0 [data] = Some (1, h') /\
    h' !! 1 = Some [Alice; Bob; Charlie; David; Arneis; Alex] /\
    h' !! 0 = Some data.
Proof.
  split; [reflexivity|].
  destruct (create_meetCriteria_filter User_get Z.ltb 0 [] adult 0 [data] data
              eq_refl) as (h' & Hrun & Hnew & Hold & _).
  exists h'. split; [exact Hrun | split; [exact Hnew | exact Hold]].
Defined.

Lemma OrderBy_apply_in_place_witness :
  [data] !! 0 = Some data /\
  exists h',
    OrderBy_apply User_get Z.ltb (new_OrderBy age asc) 0 [data] = Some (0, h') /\
    length h' = 1 /\
    h' !! 0 = Some [Bacchus; Alice; Bob; Charlie; Alex; David; Arneis].
Proof.
  split; [reflexivity|].
  destruct (OrderBy_apply_in_place User_get Z.ltb (new_OrderBy age asc) 0
              [data] data eq_refl) as (h' & Hrun & Hlen & Hsorted & _).
  exists h'. split; [exact Hrun | split; [exact Hlen | exact Hsorted]].
Defined.

(** The builder of the README: ages 30 to 40, names in A, by age
    descending. *)
Lemma build_meetCriteria_fold_witness :
  run 1 (setOrderBy 0 age (Some desc)
           (addCriteria 0 NameStartsWithA
              (addCriteria 0 (AgeCriteria 30 40)
                 (new_CriteriaBuilder []).2).2).2).2
    (build 0) 0 [data] =
  Some (2, [data; [Bob; Charlie; David; Alex]; [Alex]]) /\
  [mkBuilder [AgeCriteria 30 40] (Some (new_OrderBy age desc))] !! 0 =
    Some (mkBuilder [AgeCriteria 30 40] (Some (new_OrderBy age desc))) /\
  run 1 [mkBuilder [AgeCriteria 30 40] (Some (new_OrderBy age desc))]
    (build 0) 0 [data] =
  Some (1, [data; [David; Charlie; Alex; Bob]]).
Proof.
  destruct (build_meetCriteria_fold User_get Z.ltb) as (Hfluent & Hfold & _).
  split; [|split; [reflexivity|]].
  - etrans;
      [exact (Hfluent 0 [] (AgeCriteria 30 40) NameStartsWithA age 0 [data])
      |reflexivity].
  - etrans;
      [exact (Hfold 0 [mkBuilder [AgeCriteria 30 40] (Some (new_OrderBy age desc))]
                0 _ 0 [data] eq_refl)
      |reflexivity].
Defined.

Lemma OrderBy_apply_stable_witness :
  [data] !! 0 = Some data /\
  OrderBy_apply User_get Z.ltb (new_OrderBy age asc) 0 [data] =
    Some (0, [[Bacchus; Alice; Bob; Charlie; Alex; David; Arneis]]) /\
  List.filter (ties User_get Z.ltb (new_OrderBy age asc) Alex)
    [Bacchus; Alice; Bob; Charlie; Alex; David; Arneis] = [Charlie; Alex] /\
  OrderBy_apply User_get Z.ltb (new_OrderBy age desc) 0 [data] =
    Some (0, [[Arneis; David; Charlie; Alex; Bob; Alice; Bacchus]]).
Proof.
  split; [reflexivity|].
  destruct (OrderBy_apply_stable User_get Z.ltb Z_ltb_asym Z_ltb_negtrans
              (new_OrderBy age asc) 0 [data] data eq_refl)
    as (Hrun & _ & _ & _ & Hstable).
  destruct (OrderBy_apply_stable User_get Z.ltb Z_ltb_asym Z_ltb_negtrans
              (new_OrderBy age desc) 0 [data] data eq_refl)
    as (Hrun' & _).
  split; [exact Hrun | split; [exact (Hstable Alex) | exact Hrun']].
Defined.

(** The README's [combinedOrCriteria]. *)
Lemma OrCriteria_union_in_order_witness :
  run 0 [] (OrCriteria (AgeCriteria 30 40) NameStartsWithA) 0 [data] =
  Some (3, [data; [Bob; Charlie; David; Alex]; [Alice; Arneis; Alex];
            [Bob; Charlie; David; Alex; Alice; Arneis]]).
Proof.
  exact (proj1 (OrCriteria_union_in_order User_get Z.ltb 0 []
    (AgeCriteria 30 40) NameStartsWithA 0 [data]
    1 [data; [Bob; Charlie; David; Alex]]
    2 [data; [Bob; Charlie; David; Alex]; [Alice; Arneis; Alex]]
    [Bob; Charlie; David; Alex] [Alice; Arneis; Alex]
    eq_refl eq_refl eq_refl eq_refl)).
Defined.

(** The README's [combinedAndCriteria], with its two criteria made by
    [Criteria.create]. *)
Lemma AndCriteria_meetCriteria_sequential_witness :
  [data] !! 0 = Some data /\
  run 0 [] (AndCriteria (create thirties) (create named_A)) 0 [data] =
  Some (2, [data; [Bob; Charlie; David; Alex]; [Alex]]).
Proof.
  split; [reflexivity|].
  exact (proj2 (AndCriteria_meetCriteria_sequential User_get Z.ltb)
           0 [] thirties named_A 0 [data] data eq_refl).
Defined.

(** The README's [notCriteria]. *)
Lemma NotCriteria_complement_witness :
  run 0 [] (NotCriteria NameStartsWithA) 0 [data] =
  Some (2, [data; [Alice; Arneis; Alex]; [Bob; Charlie; David; Bacchus]]).
Proof.
  exact (proj1 (NotCriteria_complement User_get Z.ltb 0 [] NameStartsWithA
    0 [data] 1 [data; [Alice; Arneis; Alex]] data [Alice; Arneis; Alex]
    eq_refl eq_refl eq_refl)).
Defined.

Lemma meetCriteria_only_allocates_witness :
  run 1 [mkBuilder [create adult] (Some (new_OrderBy age desc))]
    (build 0) 0 [data] =
  Some (1, [data; [Arneis; David; Charlie; Alex; Bob; Alice]]) /\
  [data] `prefix_of` [data; [Arneis; David; Charlie; Alex; Bob; Alice]].
Proof.
  split; [reflexivity|].
  refine (proj1 (meetCriteria_only_allocates User_get Z.ltb (fun this => this = 0)
    1 [mkBuilder [create adult] (Some (new_OrderBy age desc))]
    (build 0) 0 [data] 1 [data; [Arneis; David; Charlie; Alex; Bob; Alice]]
    _ eq_refl eq_refl)).
  intros this b -> [= <-]. split.
  - repeat constructor.
  - right. exists [], (create adult). split; [reflexivity | exact I].
Defined.

Lemma build_follows_builder_witness :
  run 1 (addCriteria 0 (create nobody) (new_CriteriaBuilder []).2).2
    (build 0) 0 [data] = Some (1, [data; []]) /\
  run 1 (setOrderBy 0 age None (new_CriteriaBuilder []).2).2
    (build 0) 0 [data] =
  Some (0, [[Bacchus; Alice; Bob; Charlie; Alex; David; Arneis]]).
Proof.
  destruct (build_follows_builder User_get Z.ltb 0 (new_CriteriaBuilder []).2
              0 (mkBuilder [] None) (create nobody) age None 0 [data] eq_refl)
    as (Hadd & Hset & _).
  split.
  - unfold run. rewrite Hadd. reflexivity.
  - unfold run. rewrite Hset. reflexivity.
Defined.

(** *** Counterexamples *)

(** Against C1 as stated: a composite built from a new builder returns its
    input; once [addCriteria] has been called on the builder the same
    composite returns nothing, and once [setOrderBy] has been called it
    sorts. *)
Lemma build_snapshot_counterexample :
  out 1 (new_CriteriaBuilder []).2 (build 0) 0 [[Bob; Alice]]
    = Some [Bob; Alice] /\
  out 1 (addCriteria 0 (create nobody) (new_CriteriaBuilder []).2).2
    (build 0) 0 [[Bob; Alice]] = Some [] /\
  out 1 (setOrderBy 0 age None (new_CriteriaBuilder []).2).2
    (build 0) 0 [[Bob; Alice]] = Some [Alice; Bob] /\
  ~ (forall fuel (B : builders User UserKey) this c items h,
       out fuel (addCriteria this c B).2 (build this) items h =
       out fuel B (build this) items h) /\
  ~ (forall fuel (B : builders User UserKey) this k d items h,
       out fuel (setOrderBy this k d B).2 (build this) items h =
       out fuel B (build this) items h).
Proof.
  split; [reflexivity|split; [reflexivity|split; [reflexivity|split]]].
  - intros H.
    specialize (H 1 (new_CriteriaBuilder []).2 0 (create nobody) 0 [[Bob; Alice]]).
    discriminate H.
  - intros H.
    specialize (H 1 (new_CriteriaBuilder []).2 0 age None 0 [[Bob; Alice]]).
    discriminate H.
Qed.

(** Against C2 as stated, when the second criteria reorders the array the
    first one returned: [a] is the composite of a new builder, which
    returns its input, [b] the composite of a builder with only an
    ordering by age, descending.  The matches of [a] are Alice, Bob in
    that order, yet the result starts with Bob. *)
Lemma OrCriteria_order_counterexample :
  run 1 (new_CriteriaBuilder (sort_only desc)).2 (build 1) 0 [[Alice; Bob]]
    = Some (0, [[Alice; Bob]]) /\
  run 1 (new_CriteriaBuilder (sort_only desc)).2 (build 0) 0 [[Alice; Bob]]
    = Some (0, [[Bob; Alice]]) /\
  out 1 (new_CriteriaBuilder (sort_only desc)).2
    (OrCriteria (build 1) (build 0)) 0 [[Alice; Bob]] = Some [Bob; Alice] /\
  union_in_order [Alice; Bob] [Bob; Alice] = [Alice; Bob] /\
  ~ (forall fuel (B : builders User UserKey) a b items h ra h1 rb h2 first other,
       run fuel B a items h = Some (ra, h1) -> h1 !! ra = Some first ->
       run fuel B b items h1 = Some (rb, h2) -> h2 !! rb = Some other ->
       out fuel B (OrCriteria a b) items h = Some (union_in_order first other)).
Proof.
  split; [reflexivity|split; [reflexivity|split; [reflexivity|split;
    [reflexivity|]]]].
  intros H.
  specialize (H 1 (new_CriteriaBuilder (sort_only desc)).2 (build 1) (build 0)
                0 [[Alice; Bob]] 0 [[Alice; Bob]] 0 [[Bob; Alice]]
                [Alice; Bob] [Bob; Alice] eq_refl eq_refl eq_refl eq_refl).
  discriminate H.
Qed.

(** Against C5 as stated, when the criteria reorders the input: [c] sorts
    the input by age (the composite of a builder with only an ordering)
    and then keeps the users over 32.  The complement comes out in the
    sorted order, Alice before Bob, not in the order of the input, Bob
    before Alice. *)
Lemma NotCriteria_order_counterexample :
  out 1 (sort_only asc) (AndCriteria (build 0) (create senior)) 0
    [[David; Bob; Alice; Charlie]] = Some [Charlie; David] /\
  out 1 (sort_only asc) (NotCriteria (AndCriteria (build 0) (create senior))) 0
    [[David; Bob; Alice; Charlie]] = Some [Alice; Bob] /\
  List.filter (fun item => negb (includes [Charlie; David] item))
    [David; Bob; Alice; Charlie] = [Bob; Alice] /\
  ~ (forall fuel (B : builders User UserKey) c items h l found,
       h !! items = Some l ->
       out fuel B c items h = Some found ->
       out fuel B (NotCriteria c) items h =
       Some (List.filter (fun item => negb (includes found item)) l)).
Proof.
  split; [reflexivity|split; [reflexivity|split; [reflexivity|]]].
  intros H.
  specialize (H 1 (sort_only asc) (AndCriteria (build 0) (create senior)) 0
                [[David; Bob; Alice; Charlie]] [David; Bob; Alice; Charlie]
                [Charlie; David] eq_refl eq_refl).
  discriminate H.
Qed.

(** Against C9 as stated: the composite of a builder with an ordering
    directive and no criteria sorts the caller's own array. *)
Lemma composite_sorts_input_counterexample :
  run 1 (sort_only asc) (build 0) 0 [[Bob; Alice]] = Some (0, [[Alice; Bob]]) /\
  ~ (forall fuel (B : builders User UserKey) this items h l r h',
       h !! items = Some l ->
       run fuel B (build this) items h = Some (r, h') ->
       h' !! items = Some l).
Proof.
  split; [reflexivity|].
  intros H.
  specialize (H 1 (sort_only asc) 0 0 [[Bob; Alice]] [Bob; Alice] 0
                [[Alice; Bob]] eq_refl eq_refl).
  discriminate H.
Qed.

End UsersFacts.

(** * The README's users: further instances *)

Module UsersMore.
Import Users.

Lemma plain_meetCriteria_total_witness :
  [data] !! 0 = Some data /\
  exists r h' lo,
    run 0 [] (OrCriteria (create thirties) (create named_A)) 0 [data]
      = Some (r, h') /\
    [data] `prefix_of` h' /\
    h' !! r = Some lo /\
    (forall x, x ∈ lo <-> x ∈ data /\ thirties x || named_A x = true).
Proof.
  split; [reflexivity|].
  destruct (plain_meetCriteria_total User_get Z.ltb 0 []
              (OrCriteria (create thirties) (create named_A)) 0 [data] data
              (conj I I) eq_refl)
    as (r & h' & lo & Hrun & Hpre & _ & Hlo & Hmem).
  exists r, h', lo. auto.
Defined.

Lemma in_order_meetCriteria_filter_witness :
  out 0 [] (AndCriteria (create thirties) (NotCriteria (create named_A)))
    0 [data] = Some [Bob; Charlie; David].
Proof.
  exact (proj2 (in_order_meetCriteria_filter User_get Z.ltb 0 []
    (AndCriteria (create thirties) (NotCriteria (create named_A))) 0 [data]
    (conj I I))).
Defined.

Lemma AndCriteria_commutes_idempotent_witness :
  out 0 [] (AndCriteria (create thirties) (create named_A)) 0 [data] =
  out 0 [] (AndCriteria (create named_A) (create thirties)) 0 [data].
Proof.
  exact (proj1 (AndCriteria_commutes_idempotent User_get Z.ltb 0 []
    (create thirties) (create named_A) 0 [data] I I)).
Defined.

Lemma NotCriteria_laws_witness :
  out 0 [] (NotCriteria (OrCriteria (create thirties) (create named_A)))
    0 [data] =
  out 0 [] (AndCriteria (NotCriteria (create thirties))
              (NotCriteria (create named_A))) 0 [data].
Proof.
  exact (proj1 (proj2 (NotCriteria_laws User_get Z.ltb 0 []
    (create thirties) (create named_A) (create adult) 0 [data] I I I))).
Defined.

Lemma OrCriteria_commutes_up_to_order_witness :
  [data] !! 0 = Some data /\
  exists l1 l2,
    out 0 [] (OrCriteria (create thirties) (create named_A)) 0 [data]
      = Some l1 /\
    out 0 [] (OrCriteria (create named_A) (create thirties)) 0 [data]
      = Some l2 /\
    l1 ≡ₚ l2.
Proof.
  split; [reflexivity|].
  destruct (OrCriteria_commutes_up_to_order User_get Z.ltb 0 []
              (create thirties) (create named_A) 0 [data] data I I eq_refl)
    as (l1 & l2 & H1 & H2 & _ & _ & Hperm).
  exists l1, l2. auto.
Defined.

Lemma sort_only_host_free d this (b : CriteriaBuilder User UserKey) :
  sort_only d !! this = Some b -> Forall host_free (criteriaChain b).
Proof.
  destruct this as [|this]; simpl; [|discriminate].
  intros [= <-]. constructor.
Qed.

Lemma meetCriteria_keeps_elements_witness :
  run 1 (sort_only asc)
    (NotCriteria (AndCriteria (build 0) (create senior))) 0
    [[David; Bob; Alice; Charlie]] =
  Some (2, [[Alice; Bob; Charlie; David]; [Charlie; David]; [Alice; Bob]]) /\
  exists lo,
    [[Alice; Bob; Charlie; David]; [Charlie; David]; [Alice; Bob]] !! 2
      = Some lo /\
    (forall x, x ∈ lo -> x ∈ [David; Bob; Alice; Charlie]).
Proof.
  split; [reflexivity|].
  exact (proj2 (meetCriteria_keeps_elements User_get Z.ltb 1 (sort_only asc)
    (NotCriteria (AndCriteria (build 0) (create senior))) 0
    [[David; Bob; Alice; Charlie]] 2
    [[Alice; Bob; Charlie; David]; [Charlie; David]; [Alice; Bob]]
    [David; Bob; Alice; Charlie]
    (sort_only_host_free asc) (conj I I) eq_refl eq_refl)).
Defined.

Lemma setOrderBy_last_wins_witness :
  (setOrderBy 0 age (Some desc)
     (setOrderBy 0 id None (new_CriteriaBuilder []).2).2).2
  =@{builders User UserKey} [mkBuilder [] (Some (new_OrderBy age desc))].
Proof.
  exact (proj1 (setOrderBy_last_wins (new_CriteriaBuilder []).2 0 id age
                  None (Some desc))).
Defined.

Lemma addCriteria_setOrderBy_commute_witness :
  (addCriteria 0 (create adult)
     (setOrderBy 0 age None (new_CriteriaBuilder []).2).2).2 =
  (setOrderBy 0 age None
     (addCriteria 0 (create adult) (new_CriteriaBuilder []).2).2).2.
Proof.
  exact (proj1 (addCriteria_setOrderBy_commute (new_CriteriaBuilder []).2 0
                  (create adult) (create senior) age None)).
Defined.

Lemma self_composite_never_returns_witness :
  (new_CriteriaBuilder []).2 !! 0 =@{option (CriteriaBuilder User UserKey)}
    Some (mkBuilder [] None) /\
  run 7 (addCriteria 0 (build 0) (new_CriteriaBuilder []).2).2 (build 0)
    0 [data] = None.
Proof.
  split; [reflexivity|].
  exact (self_composite_never_returns User_get Z.ltb 7
           (new_CriteriaBuilder []).2 0 (mkBuilder [] None) 0 [data] eq_refl).
Defined.

Lemma OrderBy_apply_again_witness :
  [data] !! 0 = Some data /\
  (let* r := OrderBy_apply User_get Z.ltb (new_OrderBy age asc) 0 in
   OrderBy_apply User_get Z.ltb (new_OrderBy age desc) r) [data] =
  Some (0, [[Arneis; David; Charlie; Alex; Bob; Alice; Bacchus]]).
Proof.
  split; [reflexivity|].
  etrans;
    [exact (proj1 (OrderBy_apply_again User_get Z.ltb
              UsersFacts.Z_ltb_asym UsersFacts.Z_ltb_negtrans
              age asc desc 0 [data] data eq_refl))
    |reflexivity].
Defined.


Lemma build_predicates_repeatable_witness :
  run 1 (sort_only asc) (build 0) 0 [[Bob; Alice]] =
    Some (0, [[Alice; Bob]]) /\
  out 1 (sort_only asc) (build 0) 0 [[Alice; Bob]] = Some [Alice; Bob].
Proof.
  split; [reflexivity|].
  exact (build_predicates_repeatable User_get Z.ltb
           UsersFacts.Z_ltb_asym UsersFacts.Z_ltb_negtrans
           0 (sort_only asc) 0 _ 0 [[Bob; Alice]] [Bob; Alice] 0
           [[Alice; Bob]] eq_refl (List.Forall_nil _) eq_refl eq_refl).
Defined.

Lemma build_chain_nested_And_witness :
  run 1 [mkBuilder [create thirties; create named_A; create adult] None]
    (build 0) 0 [data] =
  run 0 [mkBuilder [create thirties; create named_A; create adult] None]
    (AndCriteria (AndCriteria (create thirties) (create named_A))
       (create adult)) 0 [data].
Proof.
  exact (build_chain_nested_And User_get Z.ltb 0
           [mkBuilder [create thirties; create named_A; create adult] None]
           0 _ (create thirties) [create named_A; create adult] 0 [data]
           eq_refl eq_refl eq_refl).
Defined.

End UsersMore.
